(** * Cocktail / meal pairing server ([app.js]): a shallow embedding

    The development follows the layout of [app.js]:
    - JavaScript strings and the string builtins the program calls;
    - the drink normalizer ([normalizeDrinkDetails]);
    - the static pairing tables and the selector ([pickPairingRule]);
    - the meal fetcher with its fallback cascade ([fetchMealsByRule]);
    - the [POST /search] handler.

    Code that talks to the outside (the two recipe services, [Math.random],
    [console.error]) is written in a small state-and-exception monad over
    an explicit [World]. *)

From Stdlib Require Import ZArith NArith Lia List Bool String Ascii.
From stdpp Require Import base option list sorting gmap.

#[local] Open Scope list_scope.

(** ** JavaScript strings *)

(** A JavaScript string is a sequence of UTF-16 code units. *)
Abbreviation jsstring := (list N).

(** String literals of the program, which are ASCII unless noted. *)
Fixpoint lit (s : string) : jsstring :=
  match s with
  | EmptyString => []
  | String c s' => N_of_ascii c :: lit s'
  end.

(** [WhiteSpace] and [LineTerminator] code points of ECMAScript, the ones
    that [String.prototype.trim] strips. *)
Definition isWhiteSpace (c : N) : bool :=
  ((9 <=? c) && (c <=? 13) || (c =? 32) || (c =? 160) || (c =? 5760)
   || (8192 <=? c) && (c <=? 8202) || (c =? 8232) || (c =? 8233)
   || (c =? 8239) || (c =? 8287) || (c =? 12288) || (c =? 65279))%N.

Fixpoint trimStart (s : jsstring) : jsstring :=
  match s with
  | c :: s' => if isWhiteSpace c then trimStart s' else s
  | [] => []
  end.

Definition trimEnd (s : jsstring) : jsstring := rev (trimStart (rev s)).

(** [s.trim()] *)
Definition trim (s : jsstring) : jsstring := trimEnd (trimStart s).

(** [arr.includes(x)] on an array of strings. *)
Definition includes (arr : list jsstring) (x : jsstring) : bool :=
  bool_decide (x ∈ arr).

(** The restriction of [String.prototype.toLowerCase] to Basic Latin: the
    letters [A]-[Z] are mapped to [a]-[z], every other code unit is kept.
    The selector below is parametric in the lowercasing function; this
    instance is the one used to run it on concrete ingredient names. *)
Definition lowerUnit (c : N) : N :=
  if ((65 <=? c) && (c <=? 90))%N then (c + 32)%N else c.

Definition toLowerCaseLatin (s : jsstring) : jsstring := map lowerUnit s.

(** ** Values of the JSON records

    The fields the program reads from a drink record hold a string or
    [null] in the recipe service's responses; a field that is not there
    reads as [undefined]. *)
Inductive jsval :=
  | VUndefined
  | VNull
  | VStr (s : jsstring).

#[global] Instance jsval_eq_dec : EqDecision jsval.
Proof. solve_decision. Defined.

(** Truthiness: [if (v)], [v || d], [v && e]. *)
Definition truthy (v : jsval) : bool :=
  match v with
  | VStr (_ :: _) => true
  | _ => false
  end.

(** [v || d] *)
Definition orElse (v d : jsval) : jsval := if truthy v then v else d.

(** The string held by a value that is known to be a string; [v || ''] is
    always one. *)
Definition strOf (v : jsval) : jsstring :=
  match v with
  | VStr s => s
  | _ => []
  end.

(** ** Drink normalizer *)

(** A record of a recipe service: a drink of TheCocktailDB or a meal of
    TheMealDB, a JSON object whose fields hold strings or [null]. *)
Abbreviation JsonObject := (gmap jsstring jsval).

(** [{ ingredient: ing, measure: mea || '' }] *)
Record Ingredient := { ingredient : jsval; measure : jsval }.

#[global] Instance Ingredient_eq_dec : EqDecision Ingredient.
Proof. solve_decision. Defined.

(** A field of a normalized drink: a field copied from the raw record, or
    the array of ingredient records. *)
Inductive field :=
  | Raw (v : jsval)
  | IngredientList (l : list Ingredient).

Abbreviation Drink := (gmap jsstring field).

(** Decimal digits of [n], as the template literal [`...${i}`] prints a
    non-negative integer. *)
Fixpoint decimalGo (fuel n : nat) (acc : jsstring) : jsstring :=
  match fuel with
  | O => acc
  | S fuel' =>
      let acc' := (48 + N.of_nat (n mod 10))%N :: acc in
      if (n / 10 =? 0)%nat then acc' else decimalGo fuel' (n / 10) acc'
  end.

Definition decimal (n : nat) : jsstring := decimalGo (S n) n [].

(** [`strIngredient${i}`] and [`strMeasure${i}`] *)
Definition strIngredient (i : nat) : jsstring := lit "strIngredient" ++ decimal i.
Definition strMeasure (i : nat) : jsstring := lit "strMeasure" ++ decimal i.

(** [drink[key]]: the read returns the value and the object, which a read
    leaves as it is.  The normalizer threads the argument object through
    its body, so that what it does to its argument is part of its result. *)
Definition getField (drink : JsonObject) (key : jsstring) : jsval * JsonObject :=
  (default VUndefined (drink !! key), drink).

(** The body of [for (let i = 1; i <= 15; i++)], with [n] iterations left. *)
Fixpoint normalizeLoop (n i : nat) (ingredients : list Ingredient)
    (drink : JsonObject) : list Ingredient * JsonObject :=
  match n with
  | O => (ingredients, drink)
  | S n' =>
      let '(ing, drink) := getField drink (strIngredient i) in
      let '(mea, drink) := getField drink (strMeasure i) in
      let ingredients :=
        if truthy ing
        then ingredients ++ [{| ingredient := ing; measure := orElse mea (VStr []) |}]
        else ingredients in
      normalizeLoop n' (S i) ingredients drink
  end.

(** [normalizeDrinkDetails(drink)]: the returned object
    [{ ...drink, ingredients }] and the argument object after the call. *)
Definition normalizeDrinkDetails (drink : JsonObject) : Drink * JsonObject :=
  let '(ingredients, drink) := normalizeLoop 15 1 [] drink in
  (<[lit "ingredients" := IngredientList ingredients]> (Raw <$> drink), drink).

(** ** The outside world: recipe services, randomness, console *)

(** The requests the program sends: [filter.php?a=], [filter.php?c=] of
    TheMealDB, and [search.php?s=], [filter.php?i=] of TheCocktailDB. *)
Inductive Request :=
  | MealsByArea (a : jsstring)
  | MealsByCategory (c : jsstring)
  | DrinksByName (s : jsstring)
  | DrinksByIngredient (i : jsstring).

(** A thrown error object; the program only reads its [message]. *)
Record Error := { message : jsstring }.

(** What [await axios.get(...)] followed by reading the list field of the
    body ([data.meals], [data.drinks]) gives: the statement throws (the
    request is rejected, or the body is not an object), or the body is
    there and its list field is an array, or [null] or missing ([None]). *)
Inductive Response :=
  | Rejects (e : Error)
  | Data (items : option (list JsonObject)).

Abbreviation Exchange := (Request * Response)%type.

(** The state that the effects of one request handler act on: the
    exchanges with the recipe services so far (oldest first), the number of
    [Math.random()] calls so far, and the lines written by
    [console.error]. *)
Record World := {
  exchanges : list Exchange;
  drawn : nat;
  console : list (list jsstring)
}.

(** How a statement completes. *)
Inductive Completion (A : Type) :=
  | Normal (a : A)
  | Thrown (e : Error).
Arguments Normal {A} a.
Arguments Thrown {A} e.

Definition M (A : Type) : Type := World -> Completion A * World.

#[global] Instance M_ret : MRet M := fun A a w => (Normal a, w).

#[global] Instance M_bind : MBind M := fun A B k m w =>
  match m w with
  | (Normal a, w') => k a w'
  | (Thrown e, w') => (Thrown e, w')
  end.

Definition throw {A} (e : Error) : M A := fun w => (Thrown e, w).

(** [try { body } catch (e) { handler }] *)
Definition tryCatch {A} (body : M A) (handler : Error -> M A) : M A := fun w =>
  match body w with
  | (Normal a, w') => (Normal a, w')
  | (Thrown e, w') => handler e w'
  end.

(** [console.error(label, msg)] *)
Definition console_error (label msg : jsstring) : M unit := fun w =>
  (Normal tt,
   {| exchanges := exchanges w; drawn := drawn w;
      console := console w ++ [[label; msg]] |}).

(** A value of [Math.random()]: the double [num / 2^exp2]. *)
Record Draw := { num : Z; exp2 : Z }.

(** The doubles in the interval from 0 (included) to 1 (excluded): at most
    53 significant bits, no bit below [2^-1074]. *)
Definition unitDouble (r : Draw) : Prop :=
  (0 <= num r < 2 ^ 53 /\ 0 <= exp2 r <= 1074 /\ num r < 2 ^ exp2 r)%Z.

(** Rounding of a non-negative integer to 53 significant bits, to nearest
    and ties to even: the rounding of a double multiplication. *)
Definition round53 (p : Z) : Z :=
  (if p <? 2 ^ 53 then p
   else
     let k := Z.log2 p - 52 in
     let q := p / 2 ^ k in
     let rest := p mod 2 ^ k in
     let half := 2 ^ (k - 1) in
     if rest <? half then q * 2 ^ k
     else if half <? rest then (q + 1) * 2 ^ k
     else if Z.even q then q * 2 ^ k
     else (q + 1) * 2 ^ k)%Z.

(** [Math.floor(r * n)] for a draw [r] and an array length [n]: the exact
    product is [num * n / 2^exp2], the double product rounds its numerator. *)
Definition floorTimes (r : Draw) (n : nat) : nat :=
  Z.to_nat (round53 (num r * Z.of_nat n) / 2 ^ exp2 r).

(** The sign of [Math.random() - 0.5] (negative exactly when the draw is
    below one half): all that a sort looks at in a comparator's result. *)
Definition minusHalfSign (r : Draw) : Z := Z.sgn (2 * num r - 2 ^ exp2 r).

(** The world after one more call of [Math.random()]. *)
Definition afterDraw (w : World) : World :=
  {| exchanges := exchanges w; drawn := S (drawn w); console := console w |}.

(** The world after one more exchange with a recipe service. *)
Definition afterExchange (w : World) (x : Exchange) : World :=
  {| exchanges := exchanges w ++ [x]; drawn := drawn w; console := console w |}.

(** The recipe services: the response to a request, given the exchanges
    that came before. *)
Abbreviation Service := (list Exchange -> Request -> Response).

(** A random source: the value of the [n]-th call of [Math.random()]. *)
Abbreviation RandomSource := (nat -> Draw).

Section Host.

Variable axios : Service.
Variable random : RandomSource.

(** [(await axios.get(url, { params })).data.<list field>] *)
Definition axios_get (rq : Request) : M (option (list JsonObject)) := fun w =>
  let resp := axios (exchanges w) rq in
  let w' := afterExchange w (rq, resp) in
  match resp with
  | Rejects e => (Thrown e, w')
  | Data items => (Normal items, w')
  end.

(** [Math.random()] *)
Definition Math_random : M Draw := fun w =>
  (Normal (random (drawn w)), afterDraw w).

(** [pickOne(arr)]: [arr[Math.floor(Math.random() * arr.length)]], which is
    [undefined] ([None]) when the index is not one of the array. *)
Definition pickOne {A} (arr : list A) : M (option A) :=
  r ← Math_random;
  mret (arr !! floorTimes r (length arr)).

(** ** Pairing tables *)

(** A pairing rule [{ type, value }].  Rules are objects, compared by
    reference ([===], [includes]); every object literal of the tables is an
    object of its own, told apart here by [site], the line of [app.js]
    that holds the literal. *)
Record Rule := { site : nat; type : jsstring; value : jsstring }.

#[global] Instance Rule_eq_dec : EqDecision Rule.
Proof. solve_decision. Defined.

Record Group := { keys : list jsstring; options : list Rule }.

#[global] Instance Group_eq_dec : EqDecision Group.
Proof. solve_decision. Defined.

Definition area : jsstring := lit "area".
Definition category : jsstring := lit "category".

Definition FILLERS : list jsstring := map lit
  ["ice"; "salt"; "sugar"; "water"; "soda water"; "club soda"; "tonic water";
   "ginger ale"; "lemon juice"; "lime juice"; "orange juice";
   "cranberry juice"; "pineapple juice"; "simple syrup"; "syrup";
   "grenadine"; "angostura bitters"; "bitters"; "mint"; "basil"; "rosemary";
   "egg white"; "cream"; "milk"; "half-and-half"]%string.

(** [c] with a cedilla, U+00E7, in two of the keys. *)
Definition c_cedilla : N := 231.

Definition PAIRING_CANDIDATES : list Group := [
  {| keys := map lit ["tequila"; "mezcal"]%string;
     options := [ {| site := 42; type := area; value := lit "Mexican" |};
                  {| site := 43; type := category; value := lit "Pork" |};
                  {| site := 44; type := category; value := lit "Seafood" |} ] |};
  {| keys := map lit ["rum"]%string;
     options := [ {| site := 47; type := area; value := lit "Jamaican" |};
                  {| site := 48; type := area; value := lit "Cuban" |};
                  {| site := 49; type := category; value := lit "Dessert" |} ] |};
  {| keys := map lit ["gin"]%string;
     options := [ {| site := 52; type := category; value := lit "Seafood" |};
                  {| site := 53; type := category; value := lit "Vegetarian" |};
                  {| site := 54; type := area; value := lit "British" |} ] |};
  {| keys := map lit ["vodka"]%string;
     options := [ {| site := 57; type := category; value := lit "Pasta" |};
                  {| site := 58; type := area; value := lit "Russian" |};
                  {| site := 59; type := category; value := lit "Chicken" |} ] |};
  {| keys := map lit ["whiskey"; "whisky"; "bourbon"; "rye"; "scotch"]%string;
     options := [ {| site := 62; type := category; value := lit "Beef" |};
                  {| site := 63; type := category; value := lit "Pork" |};
                  {| site := 64; type := area; value := lit "American" |} ] |};
  {| keys := map lit ["brandy"; "cognac"]%string;
     options := [ {| site := 67; type := category; value := lit "Lamb" |};
                  {| site := 68; type := category; value := lit "Beef" |};
                  {| site := 69; type := area; value := lit "French" |} ] |};
  {| keys := map lit ["campari"; "aperol"; "vermouth"]%string;
     options := [ {| site := 73; type := category; value := lit "Seafood" |};
                  {| site := 74; type := category; value := lit "Pasta" |};
                  {| site := 75; type := area; value := lit "Italian" |} ] |};
  {| keys := [ lit "triple sec"; lit "cointreau"; lit "grand marnier";
               lit "cura" ++ c_cedilla :: lit "ao"; lit "curacao";
               lit "amaretto" ];
     options := [ {| site := 78; type := category; value := lit "Dessert" |};
                  {| site := 79; type := category; value := lit "Cake" |};
                  {| site := 80; type := category; value := lit "Pancake" |} ] |};
  {| keys := map lit ["sotol"]%string;
     options := [ {| site := 84; type := area; value := lit "Mexican" |};
                  {| site := 85; type := category; value := lit "Beef" |} ] |};
  {| keys := [ lit "cacha" ++ c_cedilla :: lit "a"; lit "cacacha";
               lit "aguardiente" ];
     options := [ {| site := 89; type := area; value := lit "Brazilian" |};
                  {| site := 90; type := category; value := lit "Beef" |} ] |};
  {| keys := map lit ["ouzo"; "pastis"; "arak"; "raki"; "sambuca"]%string;
     options := [ {| site := 94; type := area; value := lit "Greek" |};
                  {| site := 95; type := category; value := lit "Seafood" |} ] |};
  {| keys := map lit ["sake"; "soju"; "shochu"]%string;
     options := [ {| site := 99; type := area; value := lit "Japanese" |};
                  {| site := 100; type := category; value := lit "Seafood" |} ] |}
].

Definition DEFAULT_PAIRINGS : list Rule := [
  {| site := 106; type := area; value := lit "Italian" |};
  {| site := 107; type := area; value := lit "Thai" |};
  {| site := 108; type := area; value := lit "Indian" |};
  {| site := 109; type := category; value := lit "Seafood" |};
  {| site := 110; type := category; value := lit "Vegetarian" |};
  {| site := 111; type := category; value := lit "Chicken" |}
].

(** ** Pairing rule selector *)

(** [String.prototype.toLowerCase] of the host, which maps the whole of
    Unicode; the selector is stated for any such function. *)
Variable toLowerCase : jsstring -> jsstring.

(** The filter of [extractPairingKeys]: [x && !FILLERS.includes(x)]. *)
Definition isPairingKey (x : jsstring) : bool :=
  truthy (VStr x) && negb (includes FILLERS x).

(** The name that the selector lowercases: [i.ingredient || '']. *)
Definition nameOf (i : Ingredient) : jsstring :=
  strOf (orElse (ingredient i) (VStr [])).

(** The function mapped by [extractPairingKeys]:
    [i => (i.ingredient || '').toLowerCase().trim()]. *)
Definition keywordOf (i : Ingredient) : jsstring :=
  trim (toLowerCase (nameOf i)).

Definition extractPairingKeys (ingredients : list Ingredient) : list jsstring :=
  List.filter isPairingKey (map keywordOf ingredients).

(** The test of the loop of [pickPairingRule]:
    [group.keys.some(k => keys.includes(k))]. *)
Definition groupMatches (found : list jsstring) (group : Group) : bool :=
  existsb (fun k => includes found k) (keys group).

(** The loop of [pickPairingRule] over a table of groups: the first group
    that matches. *)
Definition firstMatch (found : list jsstring) (table : list Group) : option Group :=
  List.find (groupMatches found) table.

Definition pickPairingRule (ingredients : list Ingredient) : M (option Rule) :=
  let found := extractPairingKeys ingredients in
  match firstMatch found PAIRING_CANDIDATES with
  | Some group => pickOne (options group)
  | None => pickOne DEFAULT_PAIRINGS
  end.

(** ** [Array.prototype.sort] with a comparator

    ECMAScript leaves the order to the implementation when the comparator
    is not consistent, as the random one of the fetcher is.  The program
    runs on Node.js, whose engine (V8) sorts an array of fewer than 64
    elements, the only case here, in two steps: the ascending or strictly
    descending run that starts the array is found (and reversed when
    descending), then every later element is inserted into the sorted
    front at the point a binary search finds.  [compare a b] is the sign of
    the comparator's result. *)
Section Sort.

Context {A : Type}.
Variable compare : A -> A -> M Z.

(** The loop of [CountAndMakeRun]: extends the run while the order of the
    neighbours is the one of the first pair. *)
Fixpoint countRunLoop (isDescending : bool) (previous : A) (rest : list A)
    (runLength : nat) : M nat :=
  match rest with
  | [] => mret runLength
  | current :: rest' =>
      order ← compare current previous;
      if (if isDescending then (0 <=? order)%Z else (order <? 0)%Z)
      then mret runLength
      else countRunLoop isDescending current rest' (S runLength)
  end.

Definition countAndMakeRun (work : list A) : M (nat * list A) :=
  match work with
  | elementHigh :: elementLow :: rest =>
      order ← compare elementLow elementHigh;
      let isDescending := (order <? 0)%Z in
      runLength ← countRunLoop isDescending elementLow rest 2;
      mret (runLength,
            if isDescending
            then rev (take runLength work) ++ drop runLength work
            else work)
  | _ => mret (length work, work)
  end.

(** The binary search of [BinaryInsertionSort]:
    [while (left < right) { mid = left + ((right - left) >> 1); ... }].
    Every turn narrows [right - left], so [right - left] turns are enough. *)
Fixpoint findInsertionPoint (turns : nat) (pivot : A) (work : list A)
    (left right : nat) : M nat :=
  match turns with
  | O => mret left
  | S turns' =>
      if (left <? right)%nat then
        let mid := (left + (right - left) / 2)%nat in
        match work !! mid with
        | Some x =>
            order ← compare pivot x;
            if (order <? 0)%Z
            then findInsertionPoint turns' pivot work left mid
            else findInsertionPoint turns' pivot work (S mid) right
        | None => mret left
        end
      else mret left
  end.

(** Moves [work[start]] to index [left], the elements in between one up. *)
Definition insertAt (work : list A) (start left : nat) : list A :=
  match work !! start with
  | Some pivot =>
      take left work ++ pivot :: drop left (take start work) ++ drop (S start) work
  | None => work
  end.

(** The outer loop of [BinaryInsertionSort] from [start], with [n] elements
    left to insert. *)
Fixpoint binaryInsertionSort (n start : nat) (work : list A) : M (list A) :=
  match n with
  | O => mret work
  | S n' =>
      match work !! start with
      | Some pivot =>
          left ← findInsertionPoint start pivot work 0 start;
          binaryInsertionSort n' (S start) (insertAt work start left)
      | None => mret work
      end
  end.

Definition Array_sort (arr : list A) : M (list A) :=
  if (length arr <? 2)%nat then mret arr
  else
    '(runLength, work) ← countAndMakeRun arr;
    if (runLength <? length arr)%nat
    then binaryInsertionSort (length arr - runLength) runLength work
    else mret work.

End Sort.

(** ** Meal fetcher *)

(** The block that [fetchMealsByRule] has four times:
    [const { data } = await axios.get(url, { params });
     const meals = (data.meals || []);
     if (meals.length) return meals.slice(0, 6);]
    The result is [Some l] when the [return] is reached with [l], and
    [None] when control goes on past the block. *)
Definition lookupMeals (rq : Request) : M (option (list JsonObject)) :=
  items ← axios_get rq;
  let meals := default [] items in
  if (0 <? length meals)%nat then mret (Some (take 6 meals)) else mret None.

(** The comparator [() => Math.random() - 0.5]. *)
Definition randomComparator (a b : Rule) : M Z :=
  r ← Math_random;
  mret (minusHalfSign r).

(** [for (const fb of shuffled) { try { ... } catch {} } return [];] *)
Fixpoint fallbackLoop (shuffled : list Rule) : M (list JsonObject) :=
  match shuffled with
  | [] => mret []
  | fb :: rest =>
      returned ← tryCatch
        (if decide (type fb = area)
         then lookupMeals (MealsByArea (value fb))
         else lookupMeals (MealsByCategory (value fb)))
        (fun _ => mret None);
      match returned with
      | Some meals => mret meals
      | None => fallbackLoop rest
      end
  end.

(** The second half of [fetchMealsByRule], from the shuffle on. *)
Definition fallbackCascade : M (list JsonObject) :=
  shuffled ← Array_sort randomComparator DEFAULT_PAIRINGS;
  fallbackLoop shuffled.

(** The error of reading [rule.type] when [rule] is [undefined]. *)
Definition typeError : Error :=
  {| message := lit "Cannot read properties of undefined (reading 'type')" |}.

(** The first [try] block of [fetchMealsByRule]. *)
Definition primaryLookup (rule : option Rule) : M (option (list JsonObject)) :=
  tryCatch
    (match rule with
     | None => throw typeError
     | Some rule =>
         if decide (type rule = area)
         then lookupMeals (MealsByArea (value rule))
         else if decide (type rule = category)
         then lookupMeals (MealsByCategory (value rule))
         else mret None
     end)
    (fun e =>
       _ ← console_error (lit "Meal pairing fetch failed:") (message e);
       mret None).

(** [fetchMealsByRule(rule)]; the argument is [None] for [undefined]. *)
Definition fetchMealsByRule (rule : option Rule) : M (list JsonObject) :=
  returned ← primaryLookup rule;
  match returned with
  | Some meals => mret meals
  | None => fallbackCascade
  end.

(** ** The [POST /search] handler *)

Inductive HttpResponse :=
  | Redirect (location : jsstring)
  | RenderResults (drinks : list JsonObject) (heading : jsstring)
  | RenderError (msg : jsstring).

(** The double quote of the headings. *)
Definition dquote : N := 34.

(** [name && name.trim()] as a condition. *)
Definition givenText (v : jsval) : bool :=
  truthy v && truthy (VStr (trim (strOf v))).

(** The handler, for the [name] and [ingredient] fields of the parsed form
    body ([VUndefined] for a field that was not sent). *)
Definition postSearch (name ingredient : jsval) : M HttpResponse :=
  tryCatch
    (if givenText name then
       drinks ← axios_get (DrinksByName (trim (strOf name)));
       mret (RenderResults (default [] drinks)
               (lit "Results for name: " ++ dquote :: trim (strOf name) ++ [dquote]))
     else if givenText ingredient then
       drinks ← axios_get (DrinksByIngredient (trim (strOf ingredient)));
       mret (RenderResults (default [] drinks)
               (lit "Results with ingredient: " ++ dquote
                  :: trim (strOf ingredient) ++ [dquote]))
     else mret (Redirect (lit "/")))
    (fun _ => mret (RenderError (lit "Search failed. Please try different terms."))).

End Host.

Arguments pickOne random {A} arr _.

#[global] Instance Request_eq_dec : EqDecision Request.
Proof. solve_decision. Defined.

(** ** The pages *)

(** The other requests to TheCocktailDB: [list.php?c=list], [random.php],
    [lookup.php?i=] and [filter.php?c=]. *)
Inductive CocktailRequest :=
  | ListCategories
  | RandomDrink
  | LookupDrink (id : jsstring)
  | DrinksByCategory (c : jsstring).

(** What a page handler sends: one of the responses of the search form, the
    home page with its categories, or the page of a cocktail. *)
Inductive View :=
  | Plain (r : HttpResponse)
  | RenderIndex (categories : list jsval)
  | RenderCocktail (drink : Drink) (meals : list JsonObject)
      (pairingRule : option Rule).

Section Pages.

Variable axios : Service.
Variable random : RandomSource.
Variable toLowerCase : jsstring -> jsstring.

(** [(await axios.get(url, { params })).data.drinks] for the requests
    above: the list, [None] when it is [null] or missing, or an exception.
    What such a request does to the world is left open. *)
Variable cocktails : CocktailRequest -> M (option (list JsonObject)).

(** [data.drinks && data.drinks[0]]: [None] when it is falsy. *)
Definition firstDrink (drinks : option (list JsonObject)) : option JsonObject :=
  match drinks with
  | Some (drink :: _) => Some drink
  | _ => None
  end.

(** The error of [ingredients.map] when [ingredients] is no array. *)
Definition mapError : Error :=
  {| message := lit "Cannot read properties of undefined (reading 'map')" |}.

(** The lines that [GET /random] and [GET /drink/:id] share:
    [const normalized = normalizeDrinkDetails(drink);
     const pairingRule = pickPairingRule(normalized.ingredients);
     const meals = await fetchMealsByRule(pairingRule);
     res.render('cocktail', { drink: normalized, meals, pairingRule });] *)
Definition cocktailView (drink : JsonObject) : M View :=
  let normalized := fst (normalizeDrinkDetails drink) in
  match normalized !! lit "ingredients" with
  | Some (IngredientList ingredients) =>
      pairingRule ← pickPairingRule random toLowerCase ingredients;
      meals ← fetchMealsByRule axios random pairingRule;
      mret (RenderCocktail normalized meals pairingRule)
  | _ => throw mapError
  end.

(** The handler of [GET /random]. *)
Definition randomPage : M View :=
  tryCatch
    (drinks ← cocktails RandomDrink;
     match firstDrink drinks with
     | None => throw {| message := lit "No drink found" |}
     | Some drink => cocktailView drink
     end)
    (fun _ =>
       mret (Plain (RenderError
                      (lit "Could not fetch a random cocktail right now.")))).

(** The handler of [GET /drink/:id]. *)
Definition drinkPage (id : jsstring) : M View :=
  tryCatch
    (drinks ← cocktails (LookupDrink id);
     match firstDrink drinks with
     | None => mret (Plain (RenderError (lit "Drink not found.")))
     | Some drink => cocktailView drink
     end)
    (fun _ => mret (Plain (RenderError (lit "Could not load drink details.")))).

End Pages.

(** ** The form body of [POST /search] *)

(** A field of the body that [express.urlencoded({ extended: true })]
    parses: text (or nothing, when the field was not sent), or the array
    or object that the parser builds for [name[]=...] and [name[k]=...].
    An array or an object is truthy and has no method [trim]. *)
Inductive FormField :=
  | Text (v : jsval)
  | Structured.

(** The error of [name.trim()] on an array or an object. *)
Definition notAFunction : Error :=
  {| message := lit "trim is not a function" |}.

(** The error of [const { name, ingredient } = req.body] when [req.body] is
    [undefined]. *)
Definition noBody : Error :=
  {| message := lit "Cannot destructure property 'name' of 'req.body'" |}.

Section SearchForm.

Variable axios : Service.

(** The handler of [POST /search] on [req.body]: [None] when no body was
    parsed, else the fields [name] and [ingredient].  The destructuring
    comes before the [try]. *)
Definition searchHandler (body : option (FormField * FormField)) : M HttpResponse :=
  match body with
  | None => throw noBody
  | Some (name, ingredient) =>
      tryCatch
        (match name with
         | Structured => throw notAFunction
         | Text name =>
             if givenText name then
               drinks ← axios_get axios (DrinksByName (trim (strOf name)));
               mret (RenderResults (default [] drinks)
                       (lit "Results for name: "
                          ++ dquote :: trim (strOf name) ++ [dquote]))
             else
               match ingredient with
               | Structured => throw notAFunction
               | Text ingredient =>
                   if givenText ingredient then
                     drinks ← axios_get axios
                                (DrinksByIngredient (trim (strOf ingredient)));
                     mret (RenderResults (default [] drinks)
                             (lit "Results with ingredient: " ++ dquote
                                :: trim (strOf ingredient) ++ [dquote]))
                   else mret (Redirect (lit "/"))
               end
         end)
        (fun _ =>
           mret (RenderError (lit "Search failed. Please try different terms.")))
  end.

End SearchForm.

(** ** Notions used in the statements *)

(** The ingredient record that the loop pushes for slot [i]. *)
Definition entryOf (drink : JsonObject) (i : nat) : Ingredient :=
  {| ingredient := default VUndefined (drink !! strIngredient i);
     measure := orElse (default VUndefined (drink !! strMeasure i)) (VStr []) |}.

(** The test of the loop for slot [i]. *)
Definition populated (drink : JsonObject) (i : nat) : bool :=
  truthy (default VUndefined (drink !! strIngredient i)).

(** The request of a fallback rule: by area for an [area] rule, by
    category for any other. *)
Definition requestFor (fb : Rule) : Request :=
  if decide (type fb = area) then MealsByArea (value fb)
  else MealsByCategory (value fb).

(** A response with no meal in it: the lookup throws, or the list is
    [null], missing or empty. *)
Definition unsuccessful (resp : Response) : Prop :=
  match resp with
  | Data (Some (_ :: _)) => False
  | _ => True
  end.

(** What a lookup block returns on a response. *)
Definition yields (resp : Response) : option (list JsonObject) :=
  match resp with
  | Data (Some (meal :: meals)) => Some (take 6 (meal :: meals))
  | _ => None
  end.

(** The exchanges [new], made after the exchanges [before], carry the
    responses of the recipe services at the time of each request. *)
Definition answered (axios : Service)
    (before new : list Exchange) : Prop :=
  forall j rq resp, new !! j = Some (rq, resp) ->
                    resp = axios (before ++ take j new) rq.

(** The world after the exchanges [new]. *)
Definition withExchanges (w : World) (new : list Exchange) : World :=
  {| exchanges := exchanges w ++ new; drawn := drawn w; console := console w |}.

(** The world after a line on the console. *)
Definition logged (w : World) (line : list jsstring) : World :=
  {| exchanges := exchanges w; drawn := drawn w; console := console w ++ [line] |}.

(** Draws below and above one half, and the random source that follows a
    list of booleans ([true]: below one half). *)
Definition lowDraw : Draw := {| num := 1; exp2 := 2 |}.
Definition highDraw : Draw := {| num := 3; exp2 := 2 |}.

Definition drawsFor (bits : list bool) (n : nat) : Draw :=
  if nth n bits false then lowDraw else highDraw.

(** A world in which nothing has happened yet. *)
Definition idle : World := {| exchanges := []; drawn := 0; console := [] |}.

(** The shuffle of [DEFAULT_PAIRINGS] under the draws that follow [bits]. *)
Definition shuffleWith (bits : list bool) : list Rule :=
  match fst (Array_sort (randomComparator (drawsFor bits)) DEFAULT_PAIRINGS idle) with
  | Normal shuffled => shuffled
  | Thrown _ => []
  end.

Fixpoint allBits (n : nat) : list (list bool) :=
  match n with
  | O => [[]]
  | S n' => flat_map (fun bits => [true :: bits; false :: bits]) (allBits n')
  end.

(** The request of a rule of type [area] or [category]. *)
Definition requestOf (rule : Rule) (rq : Request) : Prop :=
  (type rule = area /\ rq = MealsByArea (value rule)) \/
  (type rule = category /\ rq = MealsByCategory (value rule)).

(** A form field that is not there, or that holds nothing but white
    space. *)
Definition blank (v : jsval) : Prop :=
  match v with
  | VStr s => Forall (fun c => isWhiteSpace c = true) s
  | _ => True
  end.

(** The flat record of a list of (name, measure) pairs, as the recipe
    service lays a drink out: the first pair in slot [i], the next one in
    slot [i + 1], and so on. *)
Fixpoint flattenFrom (i : nat) (l : list (jsstring * jsstring)) : JsonObject :=
  match l with
  | [] => ∅
  | (name, mea) :: l' =>
      <[strIngredient i := VStr name]>
        (<[strMeasure i := VStr mea]> (flattenFrom (S i) l'))
  end.

Definition flatten (l : list (jsstring * jsstring)) : JsonObject :=
  flattenFrom 1 l.

(** ** Sample inputs *)

Definition text (s : string) : jsval := VStr (lit s).

Definition item (s : string) : Ingredient :=
  {| ingredient := text s; measure := VStr [] |}.

Definition margarita : list Ingredient :=
  [item "Tequila"; item "Triple sec"; item "Lime juice"].

Definition sodaOnIce : list Ingredient := [item "Ice"; item "Soda water"].

(** A raw drink with the slots 1, 2 and 4 populated; slot 3 has a measure
    and no name. *)
Definition rawMargarita : JsonObject :=
  list_to_map
    [ (lit "strDrink", text "Margarita");
      (strIngredient 1, text "Tequila"); (strMeasure 1, text "1 1/2 oz");
      (strIngredient 2, text "Triple sec"); (strMeasure 2, VNull);
      (strIngredient 3, VNull); (strMeasure 3, text "1 oz");
      (strIngredient 4, text "Lime juice") ].

Definition meal (i : nat) : JsonObject := {[ lit "idMeal" := VStr (decimal i) ]}.

Definition tenMeals : list JsonObject := map meal (seq 1 10).

(** A service that has ten meals for every request, and one that has none. *)
Definition generous : Service := fun _ _ => Data (Some tenMeals).
Definition silent : Service := fun _ _ => Data None.

Definition mexican : Rule := {| site := 42; type := area; value := lit "Mexican" |}.

Definition illTyped : Rule :=
  {| site := 0; type := lit "ingredient"; value := lit "Lime" |}.

(** A cocktail service that has no drink for any request. *)
Definition noDrinks (rq : CocktailRequest) : M (option (list JsonObject)) :=
  mret None.

(** Two (name, measure) pairs; the second has no measure. *)
Definition martini : list (jsstring * jsstring) :=
  [(lit "Gin", lit "2 oz"); (lit "Vermouth", [])].

(** * Properties *)

(** ** Arithmetic of [Math.floor(Math.random() * n)] *)

Lemma round53_below (m e n : Z) :
  (0 <= m < 2 ^ 53)%Z -> (0 <= e)%Z -> (m < 2 ^ e)%Z -> (1 <= n)%Z ->
  (0 <= round53 (m * n) < n * 2 ^ e)%Z.
Proof.
  intros Hm He Hme Hn.
  assert (Hp : (0 <= m * n)%Z) by nia.
  assert (Hlt : (m * n < n * 2 ^ e)%Z) by nia.
  unfold round53.
  destruct (Z.ltb_spec (m * n) (2 ^ 53)) as [Hs|Hs]; [lia|].
  set (p := (m * n)%Z) in *.
  assert (Hppos : (0 < p)%Z) by lia.
  destruct (Z.log2_spec p Hppos) as [Hlo Hhi].
  assert (Hlog : (53 <= Z.log2 p)%Z).
  { apply Z.log2_le_pow2; lia. }
  set (k := (Z.log2 p - 52)%Z).
  assert (Hk : (1 <= k)%Z) by (unfold k; lia).
  assert (H2k : (2 ^ k = 2 * 2 ^ (k - 1))%Z).
  { replace k with (Z.succ (k - 1)) at 1 by lia. rewrite Z.pow_succ_r; lia. }
  assert (Hhalf : (0 < 2 ^ (k - 1))%Z) by (apply Z.pow_pos_nonneg; lia).
  assert (Hsplit : (2 ^ Z.log2 p = 2 ^ 52 * 2 ^ k)%Z).
  { rewrite <- Z.pow_add_r by lia. f_equal. unfold k. lia. }
  pose proof (Z.div_mod p (2 ^ k) ltac:(lia)) as Hdm.
  pose proof (Z.mod_pos_bound p (2 ^ k) ltac:(lia)) as Hmod.
  set (q := (p / 2 ^ k)%Z) in *.
  set (rest := (p mod 2 ^ k)%Z) in *.
  assert (Hq : (0 <= q)%Z) by (apply Z.div_pos; lia).
  assert (Hup : (2 ^ (k - 1) <= rest -> (q + 1) * 2 ^ k < n * 2 ^ e)%Z).
  { intros Hr.
    destruct (Z_lt_le_dec ((q + 1) * 2 ^ k) (n * 2 ^ e)) as [|Hge]; [lia|].
    exfalso.
    assert (Hgap : (n <= n * 2 ^ e - p)%Z) by (unfold p; nia).
    assert (Hn' : (n <= 2 ^ (k - 1))%Z) by nia.
    assert (Hbig : (p < 2 ^ 53 * 2 ^ (k - 1))%Z) by (unfold p; nia).
    lia. }
  destruct (Z.ltb_spec rest (2 ^ (k - 1))); [nia|].
  destruct (Z.ltb_spec (2 ^ (k - 1)) rest); [nia|].
  destruct (Z.even q); nia.
Qed.

Lemma floorTimes_in_bounds (r : Draw) (n : nat) :
  unitDouble r -> (0 < n)%nat -> (floorTimes r n < n)%nat.
Proof.
  intros (Hm & He & Hme) Hn. unfold floorTimes.
  pose proof (round53_below (num r) (exp2 r) (Z.of_nat n)
                Hm ltac:(lia) Hme ltac:(lia)) as [H0 H1].
  assert (Hpow : (0 < 2 ^ exp2 r)%Z) by (apply Z.pow_pos_nonneg; lia).
  assert (Hd : (round53 (num r * Z.of_nat n) / 2 ^ exp2 r < Z.of_nat n)%Z).
  { apply Z.div_lt_upper_bound; lia. }
  assert (Hd0 : (0 <= round53 (num r * Z.of_nat n) / 2 ^ exp2 r)%Z).
  { apply Z.div_pos; lia. }
  lia.
Qed.

(** ** The selector *)

Lemma pickOne_member {A} (random : RandomSource) (arr : list A) (w : World) :
  unitDouble (random (drawn w)) -> arr <> [] ->
  exists x, pickOne random arr w = (Normal (Some x), afterDraw w) /\ x ∈ arr.
Proof.
  intros Hr Harr.
  assert (Hlen : (0 < length arr)%nat) by (destruct arr; simpl; [done | lia]).
  pose proof (floorTimes_in_bounds _ _ Hr Hlen) as Hi.
  destruct (lookup_lt_is_Some_2 arr _ Hi) as [x Hx].
  exists x. split.
  - unfold pickOne, Math_random, mbind, M_bind, mret, M_ret. by rewrite Hx.
  - by eapply list_elem_of_lookup_2.
Qed.

Lemma includes_true (arr : list jsstring) (x : jsstring) :
  includes arr x = true <-> x ∈ arr.
Proof. unfold includes. by rewrite bool_decide_eq_true. Qed.

Lemma groupMatches_true (found : list jsstring) (group : Group) :
  groupMatches found group = true <->
  exists k, k ∈ keys group /\ k ∈ found.
Proof.
  unfold groupMatches. rewrite existsb_exists. split.
  - intros (k & Hin & Hk). exists k. split.
    + by apply list_elem_of_In.
    + by apply includes_true.
  - intros (k & Hin & Hk). exists k. split.
    + by apply list_elem_of_In.
    + by apply includes_true.
Qed.

Lemma groupMatches_false (found : list jsstring) (group : Group) :
  groupMatches found group = false <->
  forall k, k ∈ keys group -> k ∉ found.
Proof.
  rewrite <- not_true_iff_false, groupMatches_true. split.
  - intros Hno k Hk Hf. apply Hno. by exists k.
  - intros Hall (k & Hk & Hf). by apply (Hall k).
Qed.

(** The loop over the table stops at the first group that matches. *)
Lemma firstMatch_Some (found : list jsstring) (table : list Group) (group : Group) :
  firstMatch found table = Some group <->
  exists before after,
    table = before ++ group :: after /\
    Forall (fun g => groupMatches found g = false) before /\
    groupMatches found group = true.
Proof.
  unfold firstMatch. induction table as [|g table IH]; simpl.
  - split; [done|]. intros (before & after & Heq & _). by destruct before.
  - destruct (groupMatches found g) eqn:Hg.
    + split.
      * intros [= <-]. by exists [], table.
      * intros (before & after & Heq & Hbefore & Hgroup).
        destruct before as [|g' before]; simpl in Heq.
        -- by injection Heq as -> _.
        -- injection Heq as -> _. apply Forall_cons in Hbefore as [Hg' _].
           congruence.
    + rewrite IH. split.
      * intros (before & after & -> & Hbefore & Hgroup).
        exists (g :: before), after. split_and!; [done | by constructor | done].
      * intros (before & after & Heq & Hbefore & Hgroup).
        destruct before as [|g' before]; simpl in Heq.
        -- injection Heq as -> _. congruence.
        -- injection Heq as -> ->. apply Forall_cons in Hbefore as [_ Hbefore].
           by exists before, after.
Qed.

Lemma firstMatch_None (found : list jsstring) (table : list Group) :
  firstMatch found table = None <->
  Forall (fun g => groupMatches found g = false) table.
Proof.
  unfold firstMatch. induction table as [|g table IH]; simpl.
  - split; [constructor | done].
  - destruct (groupMatches found g) eqn:Hg.
    + split; [done|]. intros [Hg' _]%Forall_cons. congruence.
    + rewrite IH. split.
      * by constructor.
      * by intros [_ ?]%Forall_cons.
Qed.

(** What the filtered keywords are: the trimmed, lowercased names that are
    neither empty nor fillers. *)
Lemma elem_of_extractPairingKeys (toLowerCase : jsstring -> jsstring)
    (ingredients : list Ingredient) (x : jsstring) :
  x ∈ extractPairingKeys toLowerCase ingredients <->
  exists i, i ∈ ingredients /\ x = keywordOf toLowerCase i /\
            x <> [] /\ x ∉ FILLERS.
Proof.
  unfold extractPairingKeys.
  rewrite list_elem_of_In, filter_In, <- list_elem_of_In, list_elem_of_fmap.
  unfold isPairingKey. rewrite andb_true_iff, negb_true_iff.
  rewrite <- not_true_iff_false, includes_true.
  split.
  - intros ((i & -> & Hi) & Hne & Hf). exists i. split_and!; try done.
    intros E. rewrite E in Hne. done.
  - intros (i & Hi & -> & Hne & Hf). split_and!; try done.
    + by exists i.
    + by destruct (keywordOf toLowerCase i).
Qed.

(** Every list a rule is drawn from has a rule in it. *)
Lemma options_nonempty (group : Group) :
  group ∈ PAIRING_CANDIDATES -> options group <> [].
Proof.
  intros Hin Hnil.
  assert (H : Forall (fun g => options g <> []) PAIRING_CANDIDATES).
  { repeat constructor; discriminate. }
  rewrite Forall_forall in H. exact (H group Hin Hnil).
Qed.

(** The rule objects of the groups are not objects of [DEFAULT_PAIRINGS]. *)
Lemma options_not_default (group : Group) (rule : Rule) :
  group ∈ PAIRING_CANDIDATES -> rule ∈ options group -> rule ∉ DEFAULT_PAIRINGS.
Proof.
  intros Hg Hr.
  assert (H : Forall (fun g => Forall (fun r => r ∉ DEFAULT_PAIRINGS) (options g))
                PAIRING_CANDIDATES).
  { apply (bool_decide_unpack _). vm_compute. reflexivity. }
  rewrite Forall_forall in H. specialize (H group Hg).
  rewrite Forall_forall in H. exact (H rule Hr).
Qed.

Lemma elem_of_trimStart (s : jsstring) (c : N) : c ∈ trimStart s -> c ∈ s.
Proof.
  induction s as [|d s IH]; simpl; [done|].
  destruct (isWhiteSpace d); [|done].
  intros H. right. by apply IH.
Qed.

Lemma elem_of_trim (s : jsstring) (c : N) : c ∈ trim s -> c ∈ s.
Proof.
  unfold trim, trimEnd. rewrite list_elem_of_In, <- in_rev, <- list_elem_of_In.
  intros H. apply elem_of_trimStart in H.
  rewrite list_elem_of_In, <- in_rev, <- list_elem_of_In in H.
  by apply elem_of_trimStart.
Qed.

Lemma toLowerCaseLatin_no_capital (s : jsstring) (c : N) :
  c ∈ toLowerCaseLatin s -> ~ (65 <= c <= 90)%N.
Proof.
  unfold toLowerCaseLatin. rewrite list_elem_of_fmap. intros (d & -> & _).
  unfold lowerUnit.
  destruct (N.leb_spec 65 d), (N.leb_spec d 90); simpl; lia.
Qed.

(** C1: when the filtered keywords hold a key of some candidate group, the
    table is scanned in declaration order: the rule returned is drawn from,
    and is a member of, the options of the first group one of whose keys
    is among the keywords, and it is not one of the objects of
    [DEFAULT_PAIRINGS]; this for every random source. *)
Theorem pickPairingRule_first_matching_group
    (random : RandomSource) (toLowerCase : jsstring -> jsstring)
    (ingredients : list Ingredient) (w : World) :
  unitDouble (random (drawn w)) ->
  (exists group k,
      group ∈ PAIRING_CANDIDATES /\ k ∈ keys group /\
      k ∈ extractPairingKeys toLowerCase ingredients) ->
  exists before group after rule,
    PAIRING_CANDIDATES = before ++ group :: after /\
    (forall g k, g ∈ before -> k ∈ keys g ->
                 k ∉ extractPairingKeys toLowerCase ingredients) /\
    (exists k, k ∈ keys group /\ k ∈ extractPairingKeys toLowerCase ingredients) /\
    pickPairingRule random toLowerCase ingredients w
      = pickOne random (options group) w /\
    pickPairingRule random toLowerCase ingredients w
      = (Normal (Some rule), afterDraw w) /\
    rule ∈ options group /\
    rule ∉ DEFAULT_PAIRINGS.
Proof.
  intros Hr (g0 & k0 & Hg0 & Hk0 & Hfound).
  set (found := extractPairingKeys toLowerCase ingredients) in *.
  destruct (firstMatch found PAIRING_CANDIDATES) as [group|] eqn:Hfirst.
  - pose proof Hfirst as Hsplit.
    apply firstMatch_Some in Hsplit as (before & after & Heq & Hbefore & Hgroup).
    assert (Hin : group ∈ PAIRING_CANDIDATES).
    { rewrite Heq. apply elem_of_app. right. left. }
    destruct (pickOne_member random (options group) w Hr
                (options_nonempty group Hin)) as (rule & Hpick & Hrule).
    assert (Hcode : pickPairingRule random toLowerCase ingredients w
                    = pickOne random (options group) w).
    { unfold pickPairingRule. fold found. by rewrite Hfirst. }
    exists before, group, after, rule. split_and!.
    + done.
    + intros g k Hg Hk. rewrite Forall_forall in Hbefore.
      exact (proj1 (groupMatches_false found g) (Hbefore g Hg) k Hk).
    + by apply groupMatches_true.
    + done.
    + by rewrite Hcode.
    + done.
    + by eapply options_not_default.
  - exfalso. apply firstMatch_None in Hfirst. rewrite Forall_forall in Hfirst.
    exact (proj1 (groupMatches_false found g0) (Hfirst g0 Hg0) k0 Hk0 Hfound).
Qed.

(** C2: when every name is a filler or is no key of any candidate group,
    the rule returned is a member of [DEFAULT_PAIRINGS], for every random
    source. *)
Theorem pickPairingRule_default
    (random : RandomSource) (toLowerCase : jsstring -> jsstring)
    (ingredients : list Ingredient) (w : World) :
  unitDouble (random (drawn w)) ->
  (forall i, i ∈ ingredients ->
     keywordOf toLowerCase i ∈ FILLERS \/
     forall group, group ∈ PAIRING_CANDIDATES ->
                   keywordOf toLowerCase i ∉ keys group) ->
  exists rule,
    pickPairingRule random toLowerCase ingredients w
      = (Normal (Some rule), afterDraw w) /\
    rule ∈ DEFAULT_PAIRINGS.
Proof.
  intros Hr Hnames.
  assert (Hnone : firstMatch (extractPairingKeys toLowerCase ingredients)
                    PAIRING_CANDIDATES = None).
  { apply firstMatch_None, Forall_forall. intros g Hg.
    apply groupMatches_false. intros k Hk Hfound.
    apply elem_of_extractPairingKeys in Hfound as (i & Hi & -> & _ & Hfill).
    destruct (Hnames i Hi) as [Hf|Hno]; [done|].
    exact (Hno g Hg Hk). }
  destruct (pickOne_member random DEFAULT_PAIRINGS w Hr ltac:(discriminate))
    as (rule & Hpick & Hrule).
  exists rule. split; [|done].
  unfold pickPairingRule. by rewrite Hnone.
Qed.

(** C3: [pickPairingRule] returns a rule for every ingredient list, the
    empty one included; every list that [pickOne] is applied to is
    non-empty, and on a non-empty array the index
    [Math.floor(Math.random() * length)] is in bounds.  Names are matched
    without regard to case (lists whose names agree once lowercased get the
    same rule); keys are compared as they are written (a key with a capital
    letter matches no lowercased name). *)
Theorem pickPairingRule_total :
  (forall random toLowerCase ingredients w,
      unitDouble (random (drawn w)) ->
      exists rule,
        pickPairingRule random toLowerCase ingredients w
          = (Normal (Some rule), afterDraw w)) /\
  (forall group, group ∈ PAIRING_CANDIDATES -> options group <> []) /\
  DEFAULT_PAIRINGS <> [] /\
  (forall (r : Draw) (arr : list Rule),
      unitDouble r -> arr <> [] ->
      (floorTimes r (length arr) < length arr)%nat) /\
  (forall random toLowerCase ingredients1 ingredients2,
      Forall2 (fun a b => toLowerCase (nameOf a) = toLowerCase (nameOf b))
        ingredients1 ingredients2 ->
      pickPairingRule random toLowerCase ingredients1
        = pickPairingRule random toLowerCase ingredients2) /\
  (forall found group,
      groupMatches found group = true <->
      exists k, k ∈ keys group /\ k ∈ found) /\
  (forall toLowerCase ingredients group,
      (forall s c, c ∈ toLowerCase s -> ~ (65 <= c <= 90)%N) ->
      (forall k, k ∈ keys group -> exists c, c ∈ k /\ (65 <= c <= 90)%N) ->
      groupMatches (extractPairingKeys toLowerCase ingredients) group = false).
Proof.
  split_and!.
  - intros random toLowerCase ingredients w Hr.
    unfold pickPairingRule.
    destruct (firstMatch _ PAIRING_CANDIDATES) as [group|] eqn:Hfirst.
    + apply firstMatch_Some in Hfirst as (before & after & Heq & _).
      assert (Hin : group ∈ PAIRING_CANDIDATES).
      { rewrite Heq. apply elem_of_app. right. left. }
      destruct (pickOne_member random (options group) w Hr
                  (options_nonempty group Hin)) as (rule & Hpick & _).
      by exists rule.
    + destruct (pickOne_member random DEFAULT_PAIRINGS w Hr ltac:(discriminate))
        as (rule & Hpick & _).
      by exists rule.
  - exact options_nonempty.
  - discriminate.
  - intros r arr Hr Harr. apply floorTimes_in_bounds; [done|].
    destruct arr; simpl; [done | lia].
  - intros random toLowerCase l1 l2 Hsame.
    unfold pickPairingRule, extractPairingKeys.
    replace (map (keywordOf toLowerCase) l1) with (map (keywordOf toLowerCase) l2);
      [done|].
    induction Hsame as [|a b l1 l2 Hab _ IH]; simpl; [done|].
    f_equal; [|done]. unfold keywordOf. by rewrite Hab.
  - exact groupMatches_true.
  - intros toLowerCase ingredients group Hlower Hcap.
    apply groupMatches_false. intros k Hk Hfound.
    destruct (Hcap k Hk) as (c & Hc & Hrange).
    apply elem_of_extractPairingKeys in Hfound as (i & _ & -> & _).
    unfold keywordOf in Hc. apply elem_of_trim in Hc.
    exact (Hlower _ c Hc Hrange).
Qed.

(** ** The normalizer *)

Lemma normalizeLoop_eq (drink : JsonObject) (n i : nat) (acc : list Ingredient) :
  normalizeLoop n i acc drink
  = (acc ++ map (entryOf drink) (List.filter (populated drink) (seq i n)), drink).
Proof.
  revert i acc. induction n as [|n IH]; intros i acc; simpl.
  - by rewrite app_nil_r.
  - rewrite IH. unfold populated at 2.
    destruct (truthy (default VUndefined (drink !! strIngredient i))); simpl.
    + by rewrite <- app_assoc.
    + done.
Qed.

Lemma populated_true (drink : JsonObject) (i : nat) :
  populated drink i = true <->
  exists name, drink !! strIngredient i = Some (VStr name) /\ name <> [].
Proof.
  unfold populated. split.
  - destruct (drink !! strIngredient i) as [[| |[|c s]]|]; simpl; try done.
    intros _. by exists (c :: s).
  - intros (name & -> & Hne). by destruct name.
Qed.

Lemma filter_seq_sorted (f : nat -> bool) (i n : nat) :
  StronglySorted lt (List.filter f (seq i n)).
Proof.
  revert i. induction n as [|n IH]; intros i; simpl; [constructor|].
  destruct (f i); [|apply IH].
  constructor; [apply IH|].
  apply Forall_forall. intros x Hx.
  apply list_elem_of_In, filter_In in Hx as [Hx _]. apply in_seq in Hx. lia.
Qed.

Lemma sorted_three (l : list nat) (a b c : nat) :
  StronglySorted lt l -> (a < b)%nat -> (b < c)%nat ->
  (forall x, x ∈ l <-> x = a \/ x = b \/ x = c) ->
  l = [a; b; c].
Proof.
  intros Hl Hab Hbc Hmem.
  assert (Hanti : AntiSymm eq lt) by (intros x y; lia).
  apply (StronglySorted_unique lt); [done | | ].
  - repeat constructor; lia.
  - apply NoDup_Permutation.
    + clear Hmem. induction Hl as [|x l _ IH Hx]; constructor; [|done].
      intros Hin. rewrite Forall_forall in Hx. specialize (Hx x Hin). lia.
    + rewrite !NoDup_cons, !elem_of_cons, !elem_of_nil. split_and!; [lia..|].
      constructor.
    + intros x. rewrite Hmem, !elem_of_cons, elem_of_nil. tauto.
Qed.

(** C4: the [ingredients] array has one entry for each slot from 1 to 15
    whose name is a non-empty string, in ascending slot order, whatever the
    slot's measure holds; the entry carries the name and the measure, or
    the empty string when the measure is missing, [null] or empty.  With
    three populated slots the array has exactly their three entries, in
    slot order. *)
Theorem normalizeDrinkDetails_ingredients (drink : JsonObject) :
  exists (slots : list nat) (entries : list Ingredient),
    fst (normalizeDrinkDetails drink) !! lit "ingredients"
      = Some (IngredientList entries) /\
    StronglySorted lt slots /\
    (forall i, i ∈ slots <->
       (1 <= i <= 15)%nat /\
       exists name, drink !! strIngredient i = Some (VStr name) /\ name <> []) /\
    length entries = length slots /\
    (forall j i, slots !! j = Some i ->
       exists name,
         drink !! strIngredient i = Some (VStr name) /\ name <> [] /\
         entries !! j
           = Some {| ingredient := VStr name;
                     measure := VStr (match drink !! strMeasure i with
                                      | Some (VStr m) => m
                                      | _ => []
                                      end) |}) /\
    (forall a b c,
       (1 <= a)%nat -> (a < b)%nat -> (b < c)%nat -> (c <= 15)%nat ->
       (forall i, (1 <= i <= 15)%nat ->
          (exists name, drink !! strIngredient i = Some (VStr name) /\ name <> [])
          <-> i = a \/ i = b \/ i = c) ->
       slots = [a; b; c] /\ length entries = 3%nat).
Proof.
  set (slots := List.filter (populated drink) (seq 1 15)).
  assert (Hmem : forall i, i ∈ slots <->
            (1 <= i <= 15)%nat /\
            exists name, drink !! strIngredient i = Some (VStr name) /\ name <> []).
  { intros i. unfold slots.
    rewrite list_elem_of_In, filter_In, in_seq, populated_true. intuition lia. }
  exists slots, (map (entryOf drink) slots). split_and!.
  - unfold normalizeDrinkDetails. rewrite normalizeLoop_eq. cbn [fst].
    apply lookup_insert_eq.
  - apply filter_seq_sorted.
  - exact Hmem.
  - by rewrite length_map.
  - intros j i Hj.
    assert (Hi : i ∈ slots) by (by eapply list_elem_of_lookup_2).
    apply Hmem in Hi as (_ & name & Hname & Hne).
    exists name. split_and!; [done..|].
    rewrite list_lookup_fmap, Hj. simpl. f_equal.
    unfold entryOf. rewrite Hname. simpl. f_equal.
    by destruct (drink !! strMeasure i) as [[| |[|? ?]]|].
  - intros a b c Ha Hab Hbc Hc Hthree.
    assert (Hslots : slots = [a; b; c]).
    { apply sorted_three; [apply filter_seq_sorted | done..|].
      intros x. rewrite Hmem. split.
      - intros [Hx Hp]. by apply Hthree.
      - intros Hx. assert (1 <= x <= 15)%nat by lia.
        split; [done|]. by apply Hthree. }
    split; [done|]. by rewrite length_map, Hslots.
Qed.

(** C5: the object returned has every field of the argument as it was,
    but for the field [ingredients], which holds the new array, and it has
    no other field; the argument object is, after the call, what it was
    before. *)
Theorem normalizeDrinkDetails_frame (drink : JsonObject) :
  (forall key, key <> lit "ingredients" ->
     fst (normalizeDrinkDetails drink) !! key = Raw <$> drink !! key) /\
  (exists entries,
     fst (normalizeDrinkDetails drink) !! lit "ingredients"
       = Some (IngredientList entries)) /\
  dom (fst (normalizeDrinkDetails drink)) = {[lit "ingredients"]} ∪ dom drink /\
  snd (normalizeDrinkDetails drink) = drink.
Proof.
  unfold normalizeDrinkDetails. rewrite normalizeLoop_eq. cbn [fst snd].
  generalize (lit "ingredients"). intros field.
  split_and!.
  - intros key Hkey. rewrite lookup_insert_ne by done. apply lookup_fmap.
  - eexists. apply lookup_insert_eq.
  - rewrite dom_insert_L. f_equal. apply dom_fmap_L.
  - reflexivity.
Qed.

(** ** The monad *)

Lemma bind_run {A B} (m : M A) (k : A -> M B) (w : World) :
  (m ≫= k) w = match m w with
               | (Normal a, w') => k a w'
               | (Thrown e, w') => (Thrown e, w')
               end.
Proof. reflexivity. Qed.

Lemma ret_run {A} (a : A) (w : World) : (mret a : M A) w = (Normal a, w).
Proof. reflexivity. Qed.

(** ** The sort *)

Lemma insertAt_perm {A} (work : list A) (start left : nat) :
  (left <= start)%nat -> insertAt work start left ≡ₚ work.
Proof.
  intros Hle. unfold insertAt.
  destruct (work !! start) as [pivot|] eqn:Hp; [|done].
  set (front := take start work). set (back := drop (S start) work).
  assert (Hwork : front ++ pivot :: back = work) by (by apply take_drop_middle).
  assert (Hfront : take left work ++ drop left front = front).
  { replace (take left work) with (take left front); [apply take_drop|].
    unfold front. rewrite take_take. f_equal. lia. }
  rewrite <- Hwork at 2. rewrite <- Hfront at 2.
  rewrite <- !Permutation_middle. by rewrite <- app_assoc.
Qed.

Lemma reverse_run_perm {A} (work : list A) (n : nat) :
  rev (take n work) ++ drop n work ≡ₚ work.
Proof.
  rewrite <- (take_drop n work) at 3. apply Permutation_app_tail.
  symmetry. apply Permutation_rev.
Qed.

(** Two runs of the sort, with comparators that answer alike on worlds
    related by [R], give the same array, a permutation of the argument,
    and neither throws. *)
Section SortSim.

Context {A : Type}.
Variable R : World -> World -> Prop.
Variables cmp1 cmp2 : A -> A -> M Z.
Hypothesis Hcmp : forall a b w1 w2, R w1 w2 ->
  exists z w1' w2',
    cmp1 a b w1 = (Normal z, w1') /\ cmp2 a b w2 = (Normal z, w2') /\ R w1' w2'.

Lemma countRunLoop_sim (isDescending : bool) (rest : list A) :
  forall previous runLength w1 w2, R w1 w2 ->
  exists n w1' w2',
    countRunLoop cmp1 isDescending previous rest runLength w1 = (Normal n, w1') /\
    countRunLoop cmp2 isDescending previous rest runLength w2 = (Normal n, w2') /\
    R w1' w2'.
Proof.
  induction rest as [|current rest IH]; intros previous runLength w1 w2 HR; simpl.
  - by exists runLength, w1, w2.
  - rewrite !bind_run.
    destruct (Hcmp current previous w1 w2 HR) as (z & w1' & w2' & -> & -> & HR').
    destruct (if isDescending then (0 <=? z)%Z else (z <? 0)%Z).
    + by exists runLength, w1', w2'.
    + by apply IH.
Qed.

Lemma countAndMakeRun_sim (work : list A) w1 w2 :
  R w1 w2 ->
  exists n work' w1' w2',
    countAndMakeRun cmp1 work w1 = (Normal (n, work'), w1') /\
    countAndMakeRun cmp2 work w2 = (Normal (n, work'), w2') /\
    R w1' w2' /\ work' ≡ₚ work.
Proof.
  intros HR. unfold countAndMakeRun.
  destruct work as [|elementHigh [|elementLow rest]].
  - by exists 0%nat, [], w1, w2.
  - by exists 1%nat, [elementHigh], w1, w2.
  - rewrite !bind_run.
    destruct (Hcmp elementLow elementHigh w1 w2 HR)
      as (z & w1' & w2' & -> & -> & HR').
    rewrite !bind_run.
    destruct (countRunLoop_sim (z <? 0)%Z rest elementLow 2%nat w1' w2' HR')
      as (n & w1'' & w2'' & -> & -> & HR'').
    eexists n, _, w1'', w2''. split_and!; [reflexivity | reflexivity | done |].
    destruct (z <? 0)%Z; [apply reverse_run_perm | done].
Qed.

Lemma findInsertionPoint_sim (pivot : A) (work : list A) (turns : nat) :
  forall left right w1 w2, R w1 w2 -> (left <= right)%nat ->
  exists p w1' w2',
    findInsertionPoint cmp1 turns pivot work left right w1 = (Normal p, w1') /\
    findInsertionPoint cmp2 turns pivot work left right w2 = (Normal p, w2') /\
    R w1' w2' /\ (left <= p <= right)%nat.
Proof.
  induction turns as [|turns IH]; intros left right w1 w2 HR Hle;
    cbn [findInsertionPoint].
  - exists left, w1, w2. split_and!; try done; lia.
  - destruct (Nat.ltb_spec left right) as [Hlt|Hge].
    + assert (Hmid : (left <= left + (right - left) / 2 < right)%nat).
      { pose proof (Nat.div_lt (right - left) 2 ltac:(lia) ltac:(lia)). lia. }
      destruct (work !! _) as [x|].
      * rewrite !bind_run.
        destruct (Hcmp pivot x w1 w2 HR) as (z & w1' & w2' & -> & -> & HR').
        destruct (z <? 0)%Z.
        -- destruct (IH left (left + (right - left) / 2)%nat w1' w2' HR' ltac:(lia))
             as (p & v1 & v2 & E1 & E2 & HR'' & Hp).
           exists p, v1, v2. split_and!; try done; lia.
        -- destruct (IH (S (left + (right - left) / 2)) right w1' w2' HR' ltac:(lia))
             as (p & v1 & v2 & E1 & E2 & HR'' & Hp).
           exists p, v1, v2. split_and!; try done; lia.
      * exists left, w1, w2. split_and!; try done; lia.
    + exists left, w1, w2. split_and!; try done; lia.
Qed.

Lemma binaryInsertionSort_sim (n : nat) :
  forall start work w1 w2, R w1 w2 ->
  exists work' w1' w2',
    binaryInsertionSort cmp1 n start work w1 = (Normal work', w1') /\
    binaryInsertionSort cmp2 n start work w2 = (Normal work', w2') /\
    R w1' w2' /\ work' ≡ₚ work.
Proof.
  induction n as [|n IH]; intros start work w1 w2 HR; simpl.
  - by exists work, w1, w2.
  - destruct (work !! start) as [pivot|].
    + rewrite !bind_run.
      destruct (findInsertionPoint_sim pivot work start 0%nat start w1 w2 HR ltac:(lia))
        as (p & w1' & w2' & -> & -> & HR' & Hp).
      destruct (IH (S start) (insertAt work start p) w1' w2' HR')
        as (work' & v1 & v2 & E1 & E2 & HR'' & Hperm).
      exists work', v1, v2. split_and!; [done..|].
      rewrite Hperm. apply insertAt_perm. lia.
    + by exists work, w1, w2.
Qed.

Lemma Array_sort_sim (arr : list A) w1 w2 :
  R w1 w2 ->
  exists sorted w1' w2',
    Array_sort cmp1 arr w1 = (Normal sorted, w1') /\
    Array_sort cmp2 arr w2 = (Normal sorted, w2') /\
    R w1' w2' /\ sorted ≡ₚ arr.
Proof.
  intros HR. unfold Array_sort.
  destruct (length arr <? 2)%nat.
  - by exists arr, w1, w2.
  - rewrite !bind_run.
    destruct (countAndMakeRun_sim arr w1 w2 HR)
      as (n & work & w1' & w2' & -> & -> & HR' & Hperm).
    destruct (n <? length arr)%nat.
    + destruct (binaryInsertionSort_sim (length arr - n) n work w1' w2' HR')
        as (work' & v1 & v2 & E1 & E2 & HR'' & Hperm').
      exists work', v1, v2. split_and!; [done..|]. by rewrite Hperm'.
    + by exists work, w1', w2'.
Qed.

End SortSim.

(** ** The fetcher *)

Lemma unsuccessful_yields (resp : Response) :
  unsuccessful resp <-> yields resp = None.
Proof. by destruct resp as [e|[[|meal meals]|]]. Qed.

Lemma yields_Some (resp : Response) (result : list JsonObject) :
  yields resp = Some result <->
  exists meals, resp = Data (Some meals) /\ meals <> [] /\ result = take 6 meals.
Proof.
  split.
  - destruct resp as [e|[[|meal meals]|]]; simpl; try done.
    intros [= <-]. by exists (meal :: meals).
  - intros (meals & -> & Hne & ->). by destruct meals.
Qed.

Lemma lookupMeals_run axios (rq : Request) (w : World) :
  lookupMeals axios rq w
  = match axios (exchanges w) rq with
    | Rejects e => (Thrown e, afterExchange w (rq, Rejects e))
    | Data items => (Normal (yields (Data items)), afterExchange w (rq, Data items))
    end.
Proof.
  unfold lookupMeals. rewrite bind_run. unfold axios_get.
  destruct (axios (exchanges w) rq) as [e|[[|meal meals]|]]; done.
Qed.

(** The [try] block of the fallback loop. *)
Lemma fallback_try_run axios (fb : Rule) (w : World) :
  tryCatch
    (if decide (type fb = area)
     then lookupMeals axios (MealsByArea (value fb))
     else lookupMeals axios (MealsByCategory (value fb)))
    (fun _ => mret None) w
  = (Normal (yields (axios (exchanges w) (requestFor fb))),
     afterExchange w (requestFor fb, axios (exchanges w) (requestFor fb))).
Proof.
  unfold tryCatch, requestFor.
  destruct (decide (type fb = area)) as [Harea|Harea]; rewrite lookupMeals_run;
    by destruct (axios _ _) as [e|items].
Qed.

Lemma withExchanges_nil (w : World) : withExchanges w [] = w.
Proof. destruct w. unfold withExchanges. simpl. by rewrite app_nil_r. Qed.

Lemma withExchanges_cons (w : World) (x : Exchange) (new : list Exchange) :
  withExchanges (afterExchange w x) new = withExchanges w (x :: new).
Proof. unfold withExchanges, afterExchange. simpl. by rewrite <- app_assoc. Qed.

(** The loop over the shuffled rules: it tries a front part of the list, in
    order, one request each, and stops either at the first response with a
    meal, or at the end of the list. *)
Lemma fallbackLoop_run axios (rules : list Rule) :
  forall w,
  exists meals new tried rest,
    fallbackLoop axios rules w = (Normal meals, withExchanges w new) /\
    answered axios (exchanges w) new /\
    rules = tried ++ rest /\
    map fst new = map requestFor tried /\
    ((rest = [] /\ Forall (fun x => unsuccessful (snd x)) new /\ meals = []) \/
     (exists init last found,
        new = init ++ [last] /\
        Forall (fun x => unsuccessful (snd x)) init /\
        snd last = Data (Some found) /\ found <> [] /\ meals = take 6 found)).
Proof.
  induction rules as [|fb rules IH]; intros w; cbn [fallbackLoop].
  - exists [], [], [], []. rewrite withExchanges_nil. split_and!; try done.
    left. split_and!; [done | constructor | done].
  - rewrite bind_run, fallback_try_run.
    set (rq := requestFor fb). set (resp := axios (exchanges w) rq).
    destruct (yields resp) as [meals|] eqn:Hy.
    + exists meals, [(rq, resp)], [fb], rules. split_and!; try done.
      * intros [|j] rq' resp' Hj; [|done]. injection Hj as <- <-.
        simpl. by rewrite app_nil_r.
      * right. apply yields_Some in Hy as (found & Hresp & Hne & ->).
        exists [], (rq, resp), found. split_and!; [done | constructor | done..].
    + destruct (IH (afterExchange w (rq, resp)))
        as (meals & new & tried & rest & Hrun & Hans & -> & Hreq & Hcases).
      exists meals, ((rq, resp) :: new), (fb :: tried), rest.
      rewrite Hrun, withExchanges_cons. split_and!; try done.
      * intros [|j] rq' resp' Hj.
        -- injection Hj as <- <-. simpl. by rewrite app_nil_r.
        -- simpl in Hj. apply Hans in Hj. simpl in Hj.
           by rewrite <- app_assoc in Hj.
      * simpl. by rewrite Hreq.
      * apply unsuccessful_yields in Hy.
        destruct Hcases as [(-> & Hall & ->)|(init & last & found & -> & Hall & Hrest)].
        -- left. split_and!; [done | by constructor | done].
        -- right. exists ((rq, resp) :: init), last, found.
           split_and!; [done | by constructor | apply Hrest..].
Qed.

(** The first [try] block: no request for a rule that is neither of type
    [area] nor of type [category]; one request otherwise, and a line on the
    console when it throws, as when the rule is [undefined]. *)
Lemma primaryLookup_run axios (rule : option Rule) (w : World) :
  primaryLookup axios rule w
  = match rule with
    | None =>
        (Normal None,
         logged w [lit "Meal pairing fetch failed:"; message typeError])
    | Some r =>
        if decide (type r = area \/ type r = category) then
          let rq := if decide (type r = area) then MealsByArea (value r)
                    else MealsByCategory (value r) in
          let w' := afterExchange w (rq, axios (exchanges w) rq) in
          (Normal (yields (axios (exchanges w) rq)),
           match axios (exchanges w) rq with
           | Rejects e => logged w' [lit "Meal pairing fetch failed:"; message e]
           | Data _ => w'
           end)
        else (Normal None, w)
    end.
Proof.
  unfold primaryLookup, tryCatch. destruct rule as [r|]; [|done].
  destruct (decide (type r = area)) as [Ha|Ha].
  - rewrite decide_True by (by left). rewrite lookupMeals_run.
    by destruct (axios _ _) as [e|items].
  - destruct (decide (type r = category)) as [Hc|Hc].
    + rewrite decide_True by (by right). rewrite lookupMeals_run.
      by destruct (axios _ _) as [e|items].
    + rewrite decide_False by tauto. done.
Qed.

Lemma randomComparator_run random (a b : Rule) (w : World) :
  randomComparator random a b w
  = (Normal (minusHalfSign (random (drawn w))), afterDraw w).
Proof. reflexivity. Qed.

(** The shuffle never throws, gives a permutation, and only draws. *)
Lemma shuffle_run random (rules : list Rule) (w : World) :
  exists shuffled w',
    Array_sort (randomComparator random) rules w = (Normal shuffled, w') /\
    shuffled ≡ₚ rules /\
    exchanges w' = exchanges w /\ console w' = console w.
Proof.
  destruct (Array_sort_sim
              (fun w1 w2 => w2 = w1 /\ exchanges w1 = exchanges w /\
                            console w1 = console w)
              (randomComparator random) (randomComparator random)) with
    (arr := rules) (w1 := w) (w2 := w)
    as (shuffled & w' & _ & Hrun & _ & (_ & Hframe) & Hperm); [|done|].
  - intros a b w1 w2 (-> & Hw). rewrite !randomComparator_run.
    by eexists _, _, _.
  - by exists shuffled, w'.
Qed.

(** Every order of the six default rules is the outcome of the shuffle for
    some draws: the twelve comparisons that the sort makes at most are
    enough to tell the outcomes apart. *)
Lemma shuffle_covers :
  (let outcomes := map shuffleWith (allBits 12) in
   forallb (fun p => bool_decide (p ∈ outcomes)) (permutations DEFAULT_PAIRINGS))
  = true.
Proof. vm_cast_no_check (eq_refl true). Qed.

Lemma drawsFor_unit (bits : list bool) (n : nat) : unitDouble (drawsFor bits n).
Proof.
  unfold drawsFor, unitDouble.
  destruct (nth n bits false); simpl; lia.
Qed.

Lemma shuffle_reaches (p : list Rule) (w : World) :
  p ≡ₚ DEFAULT_PAIRINGS ->
  exists random w',
    (forall n, unitDouble (random n)) /\
    Array_sort (randomComparator random) DEFAULT_PAIRINGS w = (Normal p, w').
Proof.
  intros Hp.
  assert (Hin : p ∈ permutations DEFAULT_PAIRINGS).
  { by apply permutations_Permutation. }
  pose proof shuffle_covers as Hcover. cbv zeta in Hcover.
  rewrite forallb_forall in Hcover.
  specialize (Hcover p (proj1 (list_elem_of_In _ _) Hin)).
  apply bool_decide_eq_true in Hcover.
  apply list_elem_of_fmap in Hcover as (bits & Hbits & _).
  set (random := fun n => drawsFor bits (n - drawn w)).
  destruct (Array_sort_sim
              (fun w1 w2 => drawn w1 = (drawn w + drawn w2)%nat)
              (randomComparator random) (randomComparator (drawsFor bits))) with
    (arr := DEFAULT_PAIRINGS) (w1 := w) (w2 := idle)
    as (shuffled & w' & w2' & Hrun & Hrun0 & _ & _).
  - intros a b w1 w2 Hw. rewrite !randomComparator_run.
    exists (minusHalfSign (drawsFor bits (drawn w2))), (afterDraw w1), (afterDraw w2).
    split_and!; [| reflexivity | simpl; lia].
    unfold random. rewrite Hw. do 4 f_equal. lia.
  - simpl. lia.
  - exists random, w'. split; [intros n; apply drawsFor_unit|].
    unfold shuffleWith in Hbits. rewrite Hrun0 in Hbits. simpl in Hbits.
    by rewrite Hrun, <- Hbits.
Qed.

Lemma answered_app axios (before new1 new2 : list Exchange) :
  answered axios before new1 ->
  answered axios (before ++ new1) new2 ->
  answered axios before (new1 ++ new2).
Proof.
  intros H1 H2 j rq resp Hj.
  destruct (decide (j < length new1)%nat) as [Hlt|Hge].
  - rewrite lookup_app_l in Hj by done.
    rewrite take_app_le by lia. by apply H1.
  - rewrite lookup_app_r in Hj by lia.
    apply H2 in Hj. rewrite Hj.
    rewrite take_app_ge by lia. by rewrite app_assoc.
Qed.

Lemma area_not_category : area <> category.
Proof. discriminate. Qed.

Lemma primaryLookup_typed axios (rule : Rule) (rq : Request) (w : World) :
  requestOf rule rq ->
  exists w1,
    primaryLookup axios (Some rule) w
      = (Normal (yields (axios (exchanges w) rq)), w1) /\
    exchanges w1 = exchanges w ++ [(rq, axios (exchanges w) rq)] /\
    drawn w1 = drawn w.
Proof.
  intros Hrq. rewrite primaryLookup_run.
  assert (Hty : type rule = area \/ type rule = category).
  { destruct Hrq as [[? _]|[? _]]; tauto. }
  rewrite decide_True by done.
  assert (Heq : (if decide (type rule = area) then MealsByArea (value rule)
                 else MealsByCategory (value rule)) = rq).
  { destruct Hrq as [[Ha ->]|[Hc ->]].
    - by rewrite decide_True.
    - rewrite decide_False; [done|]. rewrite Hc. intros E.
      by apply area_not_category. }
  cbv zeta. rewrite Heq.
  destruct (axios (exchanges w) rq) as [e|items]; by eexists.
Qed.

(** The first [try] block never throws; it makes at most one exchange,
    and returns meals only out of an exchange that has some. *)
Lemma primaryLookup_cases axios (rule : option Rule) (w : World) :
  exists returned w1 first,
    primaryLookup axios rule w = (Normal returned, w1) /\
    exchanges w1 = exchanges w ++ first /\
    answered axios (exchanges w) first /\
    match returned with
    | Some meals =>
        exists rq found,
          first = [(rq, Data (Some found))] /\ found <> [] /\ meals = take 6 found
    | None => Forall (fun x => unsuccessful (snd x)) first
    end.
Proof.
  rewrite primaryLookup_run. destruct rule as [r|].
  - destruct (decide (type r = area \/ type r = category)) as [Hty|Hty].
    + cbv zeta.
      set (rq := if decide (type r = area) then MealsByArea (value r)
                 else MealsByCategory (value r)).
      set (resp := axios (exchanges w) rq).
      assert (Hans : answered axios (exchanges w) [(rq, resp)]).
      { intros [|j] rq' resp' Hj; [|done]. injection Hj as <- <-.
        simpl. by rewrite app_nil_r. }
      eexists (yields resp), _, [(rq, resp)].
      split_and!; [reflexivity | by destruct resp | done |].
      destruct (yields resp) as [meals|] eqn:Hy.
      * apply yields_Some in Hy as (found & Hresp & Hne & ->).
        exists rq, found. by rewrite <- Hresp.
      * apply unsuccessful_yields in Hy. by constructor.
    + exists None, w, []. split_and!; [done | by rewrite app_nil_r | | constructor].
      by intros j rq resp Hj.
  - eexists None, _, []. split_and!; [done | simpl; by rewrite app_nil_r | | constructor].
    by intros j rq resp Hj.
Qed.

(** The second half of the fetcher never throws. *)
Lemma fallbackCascade_run axios random (w : World) :
  exists shuffled w2 meals new tried rest,
    Array_sort (randomComparator random) DEFAULT_PAIRINGS w = (Normal shuffled, w2) /\
    shuffled ≡ₚ DEFAULT_PAIRINGS /\
    exchanges w2 = exchanges w /\
    fallbackCascade axios random w = (Normal meals, withExchanges w2 new) /\
    answered axios (exchanges w) new /\
    shuffled = tried ++ rest /\
    map fst new = map requestFor tried /\
    ((rest = [] /\ Forall (fun x => unsuccessful (snd x)) new /\ meals = []) \/
     (exists init last found,
        new = init ++ [last] /\
        Forall (fun x => unsuccessful (snd x)) init /\
        snd last = Data (Some found) /\ found <> [] /\ meals = take 6 found)).
Proof.
  destruct (shuffle_run random DEFAULT_PAIRINGS w)
    as (shuffled & w2 & Hsort & Hperm & Hex & _).
  destruct (fallbackLoop_run axios shuffled w2)
    as (meals & new & tried & rest & Hloop & Hans & Hsplit & Hreq & Hcases).
  exists shuffled, w2, meals, new, tried, rest.
  split_and!; try done.
  - unfold fallbackCascade. by rewrite bind_run, Hsort.
  - by rewrite <- Hex.
Qed.

(** C6: for a rule of type [area] or [category] whose lookup gives at
    least one meal, the fetcher returns the first six meals of the response
    (all of them when there are fewer), in the order of the response, after
    that one exchange and no other, and without a draw; ten meals give
    exactly the first six. *)
Theorem fetchMealsByRule_primary_success (axios : Service) (random : RandomSource)
    (rule : Rule) (rq : Request) (meals : list JsonObject) (w : World) :
  requestOf rule rq ->
  axios (exchanges w) rq = Data (Some meals) ->
  meals <> [] ->
  fetchMealsByRule axios random (Some rule) w
    = (Normal (take 6 meals), afterExchange w (rq, Data (Some meals))) /\
  length (take 6 meals) = Nat.min 6 (length meals) /\
  (forall j, (j < 6)%nat -> take 6 meals !! j = meals !! j) /\
  (length meals = 10%nat ->
   length (take 6 meals) = 6%nat /\ take 6 meals ++ drop 6 meals = meals).
Proof.
  intros Hrq Hresp Hne. split_and!.
  - unfold fetchMealsByRule. rewrite bind_run, primaryLookup_run.
    assert (Hty : type rule = area \/ type rule = category).
    { destruct Hrq as [[? _]|[? _]]; tauto. }
    rewrite decide_True by done. cbv zeta.
    assert (Heq : (if decide (type rule = area) then MealsByArea (value rule)
                   else MealsByCategory (value rule)) = rq).
    { destruct Hrq as [[Ha ->]|[Hc ->]].
      - by rewrite decide_True.
      - rewrite decide_False; [done|]. rewrite Hc. intros E.
        by apply area_not_category. }
    rewrite Heq, Hresp. by destruct meals.
  - apply length_take.
  - intros j Hj. by apply lookup_take_lt.
  - intros Hten. split; [rewrite length_take; lia | apply take_drop].
Qed.

(** C7: whatever the rule (also [undefined]) and whatever the recipe
    service does, the fetcher completes normally; and when none of the
    lookups of the run gives a meal, it returns the empty list. *)
Theorem fetchMealsByRule_never_throws (axios : Service) (random : RandomSource)
    (rule : option Rule) (w : World) :
  exists meals w' new,
    fetchMealsByRule axios random rule w = (Normal meals, w') /\
    exchanges w' = exchanges w ++ new /\
    answered axios (exchanges w) new /\
    (Forall (fun x => unsuccessful (snd x)) new -> meals = []) /\
    ((forall history rq, unsuccessful (axios history rq)) -> meals = []).
Proof.
  assert (Hmain : exists meals w' new,
    fetchMealsByRule axios random rule w = (Normal meals, w') /\
    exchanges w' = exchanges w ++ new /\
    answered axios (exchanges w) new /\
    (Forall (fun x => unsuccessful (snd x)) new -> meals = [])).
  { unfold fetchMealsByRule. rewrite bind_run.
    destruct (primaryLookup_cases axios rule w)
      as (returned & w1 & first & -> & Hex1 & Hans1 & Hret).
    destruct returned as [meals|].
    - destruct Hret as (rq & found & -> & Hne & ->).
      exists (take 6 found), w1, [(rq, Data (Some found))].
      split_and!; [done..|].
      intros [Hbad _]%Forall_cons. simpl in Hbad. by destruct found.
    - destruct (fallbackCascade_run axios random w1)
        as (shuffled & w2 & meals & new & tried & rest & _ & _ & Hex2
            & Hrun & Hans2 & _ & _ & Hcases).
      exists meals, (withExchanges w2 new), (first ++ new).
      split_and!.
      + done.
      + simpl. by rewrite Hex2, Hex1, app_assoc.
      + apply answered_app; [done|]. by rewrite <- Hex1.
      + intros [_ Hall]%Forall_app.
        destruct Hcases as [(_ & _ & ->)|(init & last & found & -> & _ & Hlast & Hne & _)];
          [done|].
        apply Forall_app in Hall as [_ [Hbad _]%Forall_cons].
        rewrite Hlast in Hbad. by destruct found. }
  destruct Hmain as (meals & w' & new & Hrun & Hex & Hans & Hnone).
  exists meals, w', new. split_and!; [done..|].
  intros Hnever. apply Hnone, Forall_forall. intros [rq resp] Hin.
  apply list_elem_of_lookup in Hin as [j Hj].
  rewrite (Hans j rq resp Hj). apply Hnever.
Qed.

(** C8: every order of [DEFAULT_PAIRINGS] is the outcome of the shuffle for
    some random source; and when the lookup of the rule throws or gives no
    meal, the fetcher shuffles [DEFAULT_PAIRINGS] into a permutation of it
    and tries the shuffled rules one after the other, each with its own
    request, up to the first response with a meal, of which it returns the
    first six meals (or all, when fewer); with no such response it tries
    them all and returns the empty list. *)
Theorem fetchMealsByRule_fallback_cascade :
  (forall (p : list Rule) (w : World),
      p ≡ₚ DEFAULT_PAIRINGS ->
      exists random w',
        (forall n, unitDouble (random n)) /\
        Array_sort (randomComparator random) DEFAULT_PAIRINGS w = (Normal p, w')) /\
  (forall (axios : Service) (random : RandomSource) (rule : Rule) (rq : Request) (w : World),
      requestOf rule rq ->
      unsuccessful (axios (exchanges w) rq) ->
      exists w1 shuffled w2 meals new tried rest,
        exchanges w1 = exchanges w ++ [(rq, axios (exchanges w) rq)] /\
        drawn w1 = drawn w /\
        Array_sort (randomComparator random) DEFAULT_PAIRINGS w1
          = (Normal shuffled, w2) /\
        shuffled ≡ₚ DEFAULT_PAIRINGS /\
        exchanges w2 = exchanges w1 /\
        fetchMealsByRule axios random (Some rule) w
          = (Normal meals, withExchanges w2 new) /\
        answered axios (exchanges w1) new /\
        shuffled = tried ++ rest /\
        map fst new = map requestFor tried /\
        ((rest = [] /\ Forall (fun x => unsuccessful (snd x)) new /\ meals = []) \/
         (exists init last found,
            new = init ++ [last] /\
            Forall (fun x => unsuccessful (snd x)) init /\
            snd last = Data (Some found) /\ found <> [] /\
            meals = take 6 found))).
Proof.
  split.
  - intros p w Hp. by apply shuffle_reaches.
  - intros axios random rule rq w Hrq Hfail.
    destruct (primaryLookup_typed axios rule rq w Hrq) as (w1 & Hprim & Hex1 & Hdr).
    apply unsuccessful_yields in Hfail. rewrite Hfail in Hprim.
    destruct (fallbackCascade_run axios random w1)
      as (shuffled & w2 & meals & new & tried & rest & Hsort & Hperm & Hex2
          & Hrun & Hans & Hsplit & Hreq & Hcases).
    exists w1, shuffled, w2, meals, new, tried, rest.
    split_and!; try done.
    unfold fetchMealsByRule. by rewrite bind_run, Hprim.
Qed.

(** The fallback cascade as it is seen from outside: the shuffle of the
    defaults, which only draws, then the requests of a front part of the
    shuffled rules, one after the other, up to the first response with a
    meal. *)
Lemma fallbackCascade_observed (axios : Service) (random : RandomSource)
    (w : World) :
  exists shuffled w2 meals new tried rest,
    Array_sort (randomComparator random) DEFAULT_PAIRINGS w = (Normal shuffled, w2) /\
    shuffled ≡ₚ DEFAULT_PAIRINGS /\
    exchanges w2 = exchanges w /\
    console w2 = console w /\
    fallbackCascade axios random w = (Normal meals, withExchanges w2 new) /\
    answered axios (exchanges w) new /\
    shuffled = tried ++ rest /\
    map fst new = map requestFor tried /\
    ((rest = [] /\ Forall (fun x => unsuccessful (snd x)) new /\ meals = []) \/
     (exists init last found,
        new = init ++ [last] /\
        Forall (fun x => unsuccessful (snd x)) init /\
        snd last = Data (Some found) /\ found <> [] /\ meals = take 6 found)).
Proof.
  destruct (shuffle_run random DEFAULT_PAIRINGS w)
    as (shuffled & w2 & Hsort & Hperm & Hex & Hconsole).
  destruct (fallbackLoop_run axios shuffled w2)
    as (meals & new & tried & rest & Hloop & Hans & Hsplit & Hreq & Hcases).
  exists shuffled, w2, meals, new, tried, rest.
  split_and!; try done.
  - unfold fallbackCascade. by rewrite bind_run, Hsort.
  - by rewrite <- Hex.
Qed.

(** C10: for a rule whose type is neither [area] nor [category] the
    fetcher makes no lookup for the rule and writes no line: from the world
    as it is, it shuffles [DEFAULT_PAIRINGS] into a permutation of it and
    requests the shuffled rules one after the other, up to the first
    response with a meal, of which it returns the first six meals, or the
    empty list when there is none.  It completes normally; and a rule of
    type [area] or [category] whose lookup gives no meal goes through the
    same cascade, run after that one exchange. *)
Theorem fetchMealsByRule_ill_typed (axios : Service) (random : RandomSource)
    (rule : Rule) (w : World) :
  type rule <> area -> type rule <> category ->
  (exists shuffled w2 meals new tried rest,
      Array_sort (randomComparator random) DEFAULT_PAIRINGS w
        = (Normal shuffled, w2) /\
      shuffled ≡ₚ DEFAULT_PAIRINGS /\
      exchanges w2 = exchanges w /\
      console w2 = console w /\
      fetchMealsByRule axios random (Some rule) w
        = (Normal meals, withExchanges w2 new) /\
      answered axios (exchanges w) new /\
      shuffled = tried ++ rest /\
      map fst new = map requestFor tried /\
      ((rest = [] /\ Forall (fun x => unsuccessful (snd x)) new /\ meals = []) \/
       (exists init last found,
          new = init ++ [last] /\
          Forall (fun x => unsuccessful (snd x)) init /\
          snd last = Data (Some found) /\ found <> [] /\
          meals = take 6 found))) /\
  fetchMealsByRule axios random (Some rule) w = fallbackCascade axios random w /\
  (exists meals w',
      fetchMealsByRule axios random (Some rule) w = (Normal meals, w')) /\
  (forall (typed : Rule) (rq : Request),
      requestOf typed rq ->
      unsuccessful (axios (exchanges w) rq) ->
      exists w1 shuffled w2 meals new tried rest,
        exchanges w1 = exchanges w ++ [(rq, axios (exchanges w) rq)] /\
        drawn w1 = drawn w /\
        fetchMealsByRule axios random (Some typed) w
          = fallbackCascade axios random w1 /\
        Array_sort (randomComparator random) DEFAULT_PAIRINGS w1
          = (Normal shuffled, w2) /\
        shuffled ≡ₚ DEFAULT_PAIRINGS /\
        exchanges w2 = exchanges w1 /\
        console w2 = console w1 /\
        fetchMealsByRule axios random (Some typed) w
          = (Normal meals, withExchanges w2 new) /\
        answered axios (exchanges w1) new /\
        shuffled = tried ++ rest /\
        map fst new = map requestFor tried /\
        ((rest = [] /\ Forall (fun x => unsuccessful (snd x)) new /\ meals = []) \/
         (exists init last found,
            new = init ++ [last] /\
            Forall (fun x => unsuccessful (snd x)) init /\
            snd last = Data (Some found) /\ found <> [] /\
            meals = take 6 found))).
Proof.
  intros Harea Hcat.
  assert (Hcode : fetchMealsByRule axios random (Some rule) w
                  = fallbackCascade axios random w).
  { unfold fetchMealsByRule. rewrite bind_run, primaryLookup_run.
    rewrite decide_False by tauto. done. }
  split_and!.
  - rewrite Hcode. apply fallbackCascade_observed.
  - done.
  - rewrite Hcode.
    destruct (fallbackCascade_run axios random w)
      as (_ & w2 & meals & new & _ & _ & _ & _ & _ & Hrun & _).
    by eexists _, _.
  - intros typed rq Hrq Hfail.
    destruct (primaryLookup_typed axios typed rq w Hrq) as (w1 & Hprim & Hex1 & Hdr).
    apply unsuccessful_yields in Hfail. rewrite Hfail in Hprim.
    assert (Hcode' : fetchMealsByRule axios random (Some typed) w
                     = fallbackCascade axios random w1).
    { unfold fetchMealsByRule. by rewrite bind_run, Hprim. }
    destruct (fallbackCascade_observed axios random w1)
      as (shuffled & w2 & meals & new & tried & rest & Hsort & Hperm & Hex2
          & Hconsole & Hrun & Hans & Hsplit & Hreq & Hcases).
    exists w1, shuffled, w2, meals, new, tried, rest.
    rewrite Hcode'. split_and!; done.
Qed.

(** ** The search form *)

Lemma trimStart_blank (s : jsstring) :
  Forall (fun c => isWhiteSpace c = true) s -> trimStart s = [].
Proof. induction 1 as [|c s Hc _ IH]; simpl; [done|]. by rewrite Hc. Qed.

Lemma givenText_blank (v : jsval) : blank v -> givenText v = false.
Proof.
  unfold givenText. destruct v as [| |s]; simpl; [done..|].
  intros Hs. unfold trim. rewrite (trimStart_blank s Hs).
  by rewrite andb_false_r.
Qed.

(** C9: when the [name] field and the [ingredient] field are both missing
    or hold only white space, the handler answers with a redirect to [/],
    with no request to a recipe service, and renders no error page. *)
Theorem postSearch_blank_redirects (axios : Service) (name ingredient : jsval) (w : World) :
  blank name -> blank ingredient ->
  postSearch axios name ingredient w = (Normal (Redirect (lit "/")), w).
Proof.
  intros Hname Hing. unfold postSearch, tryCatch.
  by rewrite (givenText_blank name Hname), (givenText_blank ingredient Hing).
Qed.

(** ** Turns of the binary search *)

(** [right - left] turns are all that the binary search takes: more turns
    change nothing. *)
Lemma findInsertionPoint_enough {A} (compare : A -> A -> M Z) (pivot : A)
    (work : list A) (extra turns : nat) :
  forall left right w,
    (right - left <= turns)%nat ->
    findInsertionPoint compare (turns + extra) pivot work left right w
    = findInsertionPoint compare turns pivot work left right w.
Proof.
  induction turns as [|turns IH]; intros left right w Hle.
  - cbn [Nat.add findInsertionPoint]. destruct extra as [|extra]; [done|].
    cbn [findInsertionPoint].
    destruct (Nat.ltb_spec left right); [lia | done].
  - cbn [Nat.add findInsertionPoint].
    destruct (Nat.ltb_spec left right) as [Hlt|Hge]; [|done].
    pose proof (Nat.div_lt (right - left) 2 ltac:(lia) ltac:(lia)) as Hhalf.
    assert (Hdown : ((right - left) / 2 <= turns)%nat) by lia.
    destruct (work !! _) as [x|]; [|done].
    rewrite !bind_run. destruct (compare pivot x w) as [[z|e] w']; [|done].
    destruct (z <? 0)%Z; apply IH; lia.
Qed.

(** ** The scenarios of the specification *)

(** Tequila, triple sec and lime juice: the keywords are [tequila] and
    [triple sec], and the rule is one of the tequila group, which is
    declared before the group of triple sec. *)
Example margarita_scenario (random : RandomSource) (w : World) :
  unitDouble (random (drawn w)) ->
  extractPairingKeys toLowerCaseLatin margarita = [lit "tequila"; lit "triple sec"] /\
  exists rule,
    pickPairingRule random toLowerCaseLatin margarita w
      = (Normal (Some rule), afterDraw w) /\
    (type rule, value rule)
      ∈ [(area, lit "Mexican"); (category, lit "Pork"); (category, lit "Seafood")].
Proof.
  intros Hr. split; [by vm_compute|].
  assert (Hfirst : firstMatch (extractPairingKeys toLowerCaseLatin margarita)
                     PAIRING_CANDIDATES = head PAIRING_CANDIDATES)
    by (by vm_compute).
  unfold pickPairingRule. rewrite Hfirst. cbn [head PAIRING_CANDIDATES options].
  match goal with
  | |- context [pickOne random ?arr w] =>
      destruct (pickOne_member random arr w Hr) as (rule & -> & Hin);
        [discriminate|]
  end.
  exists rule. split; [done|].
  revert rule Hin. apply Forall_forall.
  apply (bool_decide_unpack _). by vm_compute.
Qed.

(** Ice and soda water, all fillers: no keyword, and the rule is one of the
    six defaults. *)
Example sodaOnIce_scenario (random : RandomSource) (w : World) :
  unitDouble (random (drawn w)) ->
  extractPairingKeys toLowerCaseLatin sodaOnIce = [] /\
  exists rule,
    pickPairingRule random toLowerCaseLatin sodaOnIce w
      = (Normal (Some rule), afterDraw w) /\
    rule ∈ DEFAULT_PAIRINGS /\ length DEFAULT_PAIRINGS = 6%nat.
Proof.
  intros Hr. split; [by vm_compute|].
  destruct (pickOne_member random DEFAULT_PAIRINGS w Hr ltac:(discriminate))
    as (rule & Hpick & Hin).
  by exists rule.
Qed.

(** A rule object of a group can have the type and the value of a default
    rule, as [category]/[Seafood] of the gin group has: the two are still
    two objects. *)
Example option_like_a_default :
  exists group rule fallback,
    group ∈ PAIRING_CANDIDATES /\ rule ∈ options group /\
    fallback ∈ DEFAULT_PAIRINGS /\
    type rule = type fallback /\ value rule = value fallback /\
    rule <> fallback.
Proof.
  exists {| keys := map lit ["gin"]%string;
            options := [ {| site := 52; type := category; value := lit "Seafood" |};
                         {| site := 53; type := category; value := lit "Vegetarian" |};
                         {| site := 54; type := area; value := lit "British" |} ] |},
         {| site := 52; type := category; value := lit "Seafood" |},
         {| site := 109; type := category; value := lit "Seafood" |}.
  split_and!; try done; apply (bool_decide_unpack _); by vm_compute.
Qed.

(** The worst rounding of the index: the draw [(2^54 - 1) / 3 / 2^53], just
    below two thirds, times three rounds up to two. *)
Example floorTimes_rounds_up :
  floorTimes {| num := (2 ^ 54 - 1) / 3; exp2 := 53 |} 3 = 2%nat /\
  floorTimes {| num := 2 ^ 53 - 1; exp2 := 53 |} 6 = 5%nat.
Proof. by vm_compute. Qed.

(** Draws all below one half: the six rules form a descending run, which
    the sort reverses. *)
Example shuffle_all_low :
  shuffleWith [true; true; true; true; true] = rev DEFAULT_PAIRINGS.
Proof. by vm_compute. Qed.

(** ** The theorems at the sample inputs *)

Lemma highDraw_unit : unitDouble highDraw.
Proof. unfold unitDouble. simpl. lia. Defined.

Lemma pickPairingRule_first_matching_group_witness :
  unitDouble highDraw /\
  (exists group k,
      group ∈ PAIRING_CANDIDATES /\ k ∈ keys group /\
      k ∈ extractPairingKeys toLowerCaseLatin margarita) /\
  exists group rule,
    group ∈ PAIRING_CANDIDATES /\
    pickPairingRule (fun _ => highDraw) toLowerCaseLatin margarita idle
      = (Normal (Some rule), afterDraw idle) /\
    rule ∈ options group /\ rule ∉ DEFAULT_PAIRINGS.
Proof.
  assert (Hkey : exists group k,
             group ∈ PAIRING_CANDIDATES /\ k ∈ keys group /\
             k ∈ extractPairingKeys toLowerCaseLatin margarita).
  { exists {| keys := map lit ["tequila"; "mezcal"]%string;
              options := [ {| site := 42; type := area; value := lit "Mexican" |};
                           {| site := 43; type := category; value := lit "Pork" |};
                           {| site := 44; type := category; value := lit "Seafood" |} ] |},
           (lit "tequila").
    split_and!; apply (bool_decide_unpack _); vm_compute; reflexivity. }
  split_and!; [exact highDraw_unit | exact Hkey |].
  destruct (pickPairingRule_first_matching_group (fun _ => highDraw)
              toLowerCaseLatin margarita idle highDraw_unit Hkey)
    as (before & group & after & rule & Heq & _ & _ & _ & Hrun & Hin & Hnot).
  exists group, rule. split_and!; [|exact Hrun|exact Hin|exact Hnot].
  rewrite Heq. apply elem_of_app. right. left.
Defined.

Lemma pickPairingRule_default_witness :
  unitDouble highDraw /\
  exists rule,
    pickPairingRule (fun _ => highDraw) toLowerCaseLatin sodaOnIce idle
      = (Normal (Some rule), afterDraw idle) /\
    rule ∈ DEFAULT_PAIRINGS.
Proof.
  split; [exact highDraw_unit|].
  apply (pickPairingRule_default (fun _ => highDraw) toLowerCaseLatin sodaOnIce idle
           highDraw_unit).
  intros i Hi. left.
  revert i Hi. apply Forall_forall.
  apply (bool_decide_unpack _). vm_compute. reflexivity.
Defined.

Lemma pickPairingRule_total_witness :
  (exists rule,
      pickPairingRule (fun _ => highDraw) toLowerCaseLatin [] idle
        = (Normal (Some rule), afterDraw idle)) /\
  (floorTimes highDraw (length DEFAULT_PAIRINGS) < length DEFAULT_PAIRINGS)%nat /\
  pickPairingRule (fun _ => highDraw) toLowerCaseLatin [item "TEQUILA"]
    = pickPairingRule (fun _ => highDraw) toLowerCaseLatin [item "tequila"] /\
  groupMatches (extractPairingKeys toLowerCaseLatin [item "Tequila"])
    {| keys := [lit "Tequila"]; options := [] |} = false.
Proof.
  destruct pickPairingRule_total
    as (Htotal & _ & _ & Hindex & Hcase & _ & Hcapital).
  split_and!.
  - apply Htotal. exact highDraw_unit.
  - apply Hindex; [exact highDraw_unit | discriminate].
  - apply Hcase. constructor; [vm_compute; reflexivity | constructor].
  - apply Hcapital; [exact toLowerCaseLatin_no_capital|].
    intros k Hk. exists 84%N.
    apply list_elem_of_singleton in Hk. subst k.
    split; [left | lia].
Defined.

Lemma normalizeDrinkDetails_ingredients_witness :
  exists entries,
    fst (normalizeDrinkDetails rawMargarita) !! lit "ingredients"
      = Some (IngredientList entries) /\
    length entries = 3%nat.
Proof.
  destruct (normalizeDrinkDetails_ingredients rawMargarita)
    as (slots & entries & Hout & _ & _ & _ & _ & Hthree).
  exists entries. split; [exact Hout|].
  apply (Hthree 1 2 4)%nat; [lia..|].
  intros i Hi. rewrite <- populated_true.
  assert (Hcases : (i = 1 \/ i = 2 \/ i = 3 \/ i = 4 \/ i = 5 \/ i = 6 \/ i = 7
                    \/ i = 8 \/ i = 9 \/ i = 10 \/ i = 11 \/ i = 12 \/ i = 13
                    \/ i = 14 \/ i = 15)%nat) by lia.
  destruct_or!; subst i;
    match goal with
    | |- ?p = true <-> _ =>
        let b := eval vm_compute in p in
        replace p with b by (vm_compute; reflexivity)
    end;
    (split; [intros Hp; first [discriminate Hp | lia] | intros Hp; first [reflexivity | lia]]).
Defined.

Lemma normalizeDrinkDetails_frame_witness :
  fst (normalizeDrinkDetails rawMargarita) !! lit "strDrink"
    = Some (Raw (text "Margarita")) /\
  snd (normalizeDrinkDetails rawMargarita) = rawMargarita.
Proof.
  destruct (normalizeDrinkDetails_frame rawMargarita) as (Hkeep & _ & _ & Hsame).
  split; [|exact Hsame].
  rewrite Hkeep; [vm_compute; reflexivity | discriminate].
Defined.

Lemma fetchMealsByRule_primary_success_witness :
  fetchMealsByRule generous (fun _ => lowDraw) (Some mexican) idle
    = (Normal (take 6 tenMeals),
       afterExchange idle (MealsByArea (lit "Mexican"), Data (Some tenMeals))) /\
  length (take 6 tenMeals) = 6%nat.
Proof.
  destruct (fetchMealsByRule_primary_success generous (fun _ => lowDraw) mexican
              (MealsByArea (lit "Mexican")) tenMeals idle)
    as (Hrun & _ & _ & Hten).
  - left. split; reflexivity.
  - reflexivity.
  - discriminate.
  - split; [exact Hrun|]. apply Hten. reflexivity.
Defined.

Lemma fetchMealsByRule_never_throws_witness :
  exists w', fetchMealsByRule silent (fun _ => lowDraw) None idle = (Normal [], w').
Proof.
  destruct (fetchMealsByRule_never_throws silent (fun _ => lowDraw) None idle)
    as (meals & w' & new & Hrun & _ & _ & _ & Hnone).
  exists w'. rewrite Hrun. f_equal. f_equal. apply Hnone.
  intros history rq. exact I.
Defined.

Lemma fetchMealsByRule_fallback_cascade_witness :
  (exists random w',
      Array_sort (randomComparator random) DEFAULT_PAIRINGS idle
        = (Normal (rev DEFAULT_PAIRINGS), w')) /\
  (exists meals w',
      fetchMealsByRule silent (fun _ => lowDraw) (Some mexican) idle
        = (Normal meals, w')).
Proof.
  destruct fetchMealsByRule_fallback_cascade as (Hreach & Hcascade).
  split.
  - destruct (Hreach (rev DEFAULT_PAIRINGS) idle) as (random & w' & _ & Hrun).
    + symmetry. apply Permutation_rev.
    + by exists random, w'.
  - destruct (Hcascade silent (fun _ => lowDraw) mexican
                (MealsByArea (lit "Mexican")) idle)
      as (_ & _ & w2 & meals & new & _ & _ & _ & _ & _ & _ & _ & Hrun & _).
    + left. split; reflexivity.
    + exact I.
    + by exists meals, (withExchanges w2 new).
Defined.

Lemma fetchMealsByRule_ill_typed_witness :
  exists shuffled w2 meals new,
    shuffled ≡ₚ DEFAULT_PAIRINGS /\
    fetchMealsByRule silent (fun _ => lowDraw) (Some illTyped) idle
      = (Normal meals, withExchanges w2 new) /\
    exchanges w2 = exchanges idle /\ console w2 = console idle.
Proof.
  destruct (fetchMealsByRule_ill_typed silent (fun _ => lowDraw) illTyped idle)
    as ((shuffled & w2 & meals & new & tried & rest & _ & Hperm & Hex & Hconsole
         & Hrun & _) & _).
  - discriminate.
  - discriminate.
  - exists shuffled, w2, meals, new. split_and!; assumption.
Defined.

Lemma postSearch_blank_redirects_witness :
  postSearch silent (text "   ") VUndefined idle
    = (Normal (Redirect (lit "/")), idle).
Proof.
  apply postSearch_blank_redirects.
  - repeat constructor.
  - exact I.
Defined.

(** * More of the program *)

(** ** The selector, beyond the table scan *)

Lemma groupMatches_ext (found1 found2 : list jsstring) (group : Group) :
  (forall k, k ∈ found1 <-> k ∈ found2) ->
  groupMatches found1 group = groupMatches found2 group.
Proof.
  intros Hsame. unfold groupMatches.
  induction (keys group) as [|k ks IH]; simpl; [done|].
  rewrite IH. f_equal. unfold includes. apply bool_decide_ext, Hsame.
Qed.

Lemma firstMatch_ext (found1 found2 : list jsstring) (table : list Group) :
  (forall k, k ∈ found1 <-> k ∈ found2) ->
  firstMatch found1 table = firstMatch found2 table.
Proof.
  intros Hsame. unfold firstMatch.
  induction table as [|g table IH]; simpl; [done|].
  by rewrite (groupMatches_ext found1 found2 g Hsame), IH.
Qed.

(** The rule depends on the ingredients through the set of keywords only. *)
Lemma pickPairingRule_same_keywords (random : RandomSource)
    (toLowerCase : jsstring -> jsstring) (l1 l2 : list Ingredient) :
  (forall k, k ∈ extractPairingKeys toLowerCase l1
             <-> k ∈ extractPairingKeys toLowerCase l2) ->
  pickPairingRule random toLowerCase l1 = pickPairingRule random toLowerCase l2.
Proof.
  intros Hsame. unfold pickPairingRule.
  by rewrite (firstMatch_ext _ _ PAIRING_CANDIDATES Hsame).
Qed.

(** X1: the order of the ingredients of a drink plays no part: two lists
    that are permutations of each other get the same rule, for the same
    random source.  (The order that counts is that of the table.) *)
Theorem pickPairingRule_order_irrelevant (random : RandomSource)
    (toLowerCase : jsstring -> jsstring) (l1 l2 : list Ingredient) :
  l1 ≡ₚ l2 ->
  pickPairingRule random toLowerCase l1 = pickPairingRule random toLowerCase l2.
Proof.
  intros Hperm. apply pickPairingRule_same_keywords. intros k.
  rewrite !elem_of_extractPairingKeys.
  split; intros (i & Hi & Hrest); exists i; split; try done.
  - by rewrite <- Hperm.
  - by rewrite Hperm.
Qed.

(** X2: an ingredient whose trimmed, lowercased name is a filler or is
    empty (a missing name, or white space) can be dropped from the list, or
    added to it at any place, without a change to the rule. *)
Theorem pickPairingRule_ignores_fillers (random : RandomSource)
    (toLowerCase : jsstring -> jsstring)
    (l1 l2 : list Ingredient) (i : Ingredient) :
  keywordOf toLowerCase i ∈ FILLERS \/ keywordOf toLowerCase i = [] ->
  pickPairingRule random toLowerCase (l1 ++ i :: l2)
  = pickPairingRule random toLowerCase (l1 ++ l2).
Proof.
  intros Hfill. apply pickPairingRule_same_keywords. intros k.
  rewrite !elem_of_extractPairingKeys.
  split.
  - intros (j & Hj & Hk & Hne & Hnf).
    apply elem_of_app in Hj as [Hj|Hj].
    + exists j. split_and!; try done. apply elem_of_app. by left.
    + apply elem_of_cons in Hj as [->|Hj].
      * exfalso. destruct Hfill as [Hf|He]; congruence.
      * exists j. split_and!; try done. apply elem_of_app. by right.
  - intros (j & Hj & Hrest). exists j. split; [|done].
    apply elem_of_app in Hj as [Hj|Hj]; apply elem_of_app; [by left|].
    right. by right.
Qed.

(** X3: [pickOne] never throws and makes one draw, for every array and
    every draw.  On the empty array it reads index 0, which is not there,
    and so returns [undefined]; on a non-empty array, for a draw in the
    unit interval, the index it reads is within the array and it returns
    the element at that index. *)
Theorem pickOne_empty_or_element {A} (random : RandomSource) (arr : list A)
    (w : World) :
  snd (pickOne random arr w) = afterDraw w /\
  (arr = [] ->
   floorTimes (random (drawn w)) (length arr) = 0%nat /\
   fst (pickOne random arr w) = Normal None) /\
  (unitDouble (random (drawn w)) -> arr <> [] ->
   exists k x,
     k = floorTimes (random (drawn w)) (length arr) /\
     (k < length arr)%nat /\
     arr !! k = Some x /\
     fst (pickOne random arr w) = Normal (Some x)).
Proof.
  split_and!.
  - done.
  - intros ->.
    assert (Hzero : floorTimes (random (drawn w)) (length (@nil A)) = 0%nat).
    { unfold floorTimes. simpl. rewrite Z.mul_0_r. unfold round53. simpl.
      by rewrite Zdiv_0_l. }
    split; [done|].
    unfold pickOne. rewrite bind_run. unfold Math_random.
    cbv beta iota. unfold mret, M_ret. by rewrite Hzero.
  - intros Hr Harr.
    assert (Hlen : (0 < length arr)%nat) by (destruct arr; simpl; [done | lia]).
    pose proof (floorTimes_in_bounds _ _ Hr Hlen) as Hk.
    destruct (lookup_lt_is_Some_2 arr _ Hk) as [x Hx].
    exists (floorTimes (random (drawn w)) (length arr)), x.
    split_and!; [done..|].
    unfold pickOne. rewrite bind_run. unfold Math_random.
    cbv beta iota. unfold mret, M_ret. by rewrite Hx.
Qed.

(** ** Every index can be drawn *)

Lemma round53_range (p lo hi : Z) :
  (0 <= lo <= p)%Z -> (p + 2 ^ 32 < hi)%Z -> (p < 2 ^ 85)%Z ->
  (exists c, lo = c * 2 ^ 32)%Z ->
  (lo <= round53 p < hi)%Z.
Proof.
  intros Hlo Hhi Hp (c & Hc). unfold round53.
  destruct (Z.ltb_spec p (2 ^ 53)) as [Hs|Hs]; [lia|].
  assert (Hppos : (0 < p)%Z) by lia.
  destruct (Z.log2_spec p Hppos) as [Hl1 Hl2].
  assert (Hlog : (53 <= Z.log2 p)%Z) by (apply Z.log2_le_pow2; lia).
  assert (Hlog' : (Z.log2 p < 85)%Z) by (apply Z.log2_lt_pow2; lia).
  set (k := (Z.log2 p - 52)%Z).
  assert (Hk : (1 <= k <= 32)%Z) by (unfold k; lia).
  assert (Hpow : (0 < 2 ^ k)%Z) by (apply Z.pow_pos_nonneg; lia).
  assert (Hsplit : (2 ^ 32 = 2 ^ (32 - k) * 2 ^ k)%Z).
  { rewrite <- Z.pow_add_r by lia. f_equal. lia. }
  assert (Hle32 : (2 ^ k <= 2 ^ 32)%Z) by (apply Z.pow_le_mono_r; lia).
  pose proof (Z.div_mod p (2 ^ k) ltac:(lia)) as Hdm.
  pose proof (Z.mod_pos_bound p (2 ^ k) ltac:(lia)) as Hmod.
  assert (Hq : (c * 2 ^ (32 - k) <= p / 2 ^ k)%Z).
  { apply Z.div_le_lower_bound; [lia|]. rewrite Hsplit in Hc. lia. }
  set (q := (p / 2 ^ k)%Z) in *.
  set (rest := (p mod 2 ^ k)%Z) in *.
  assert (Hlow : (lo <= q * 2 ^ k)%Z) by (rewrite Hc, Hsplit; nia).
  assert (Hhigh : ((q + 1) * 2 ^ k < hi)%Z) by nia.
  destruct (Z.ltb_spec rest (2 ^ (k - 1))); [nia|].
  destruct (Z.ltb_spec (2 ^ (k - 1)) rest); [nia|].
  destruct (Z.even q); nia.
Qed.

Lemma floorTimes_onto (n k : nat) :
  (k < n)%nat -> (Z.of_nat n < 2 ^ 32)%Z ->
  exists r, unitDouble r /\ floorTimes r n = k.
Proof.
  intros Hk Hn.
  set (N := Z.of_nat n). set (K := Z.of_nat k).
  assert (HK : (0 <= K < N)%Z) by lia.
  pose proof (Z.div_mod (K * 2 ^ 53) N ltac:(lia)) as Hdm.
  pose proof (Z.mod_pos_bound (K * 2 ^ 53) N ltac:(lia)) as Hmod.
  set (d := (K * 2 ^ 53 / N)%Z) in *.
  set (rest := ((K * 2 ^ 53) mod N)%Z) in *.
  assert (Hd0 : (0 <= d)%Z) by (apply Z.div_pos; lia).
  assert (Hd1 : (d + 1 < 2 ^ 53)%Z).
  { assert (d < 2 ^ 53 - 1)%Z; [|lia].
    apply Z.div_lt_upper_bound; [lia|]. nia. }
  exists {| num := d + 1; exp2 := 53 |}. split.
  - unfold unitDouble. simpl. lia.
  - unfold floorTimes. simpl num. simpl exp2. fold N.
    assert (Hp : (K * 2 ^ 53 < (d + 1) * N <= K * 2 ^ 53 + N)%Z) by nia.
    destruct (round53_range ((d + 1) * N) (K * 2 ^ 53) ((K + 1) * 2 ^ 53))
      as [Hlo Hhi].
    + lia.
    + lia.
    + nia.
    + exists (K * 2 ^ 21)%Z. rewrite <- Z.mul_assoc, <- Z.pow_add_r by lia. done.
    + assert (Hdiv : (round53 ((d + 1) * N) / 2 ^ 53 = K)%Z).
      { symmetry. apply Z.div_unique with (r := (round53 ((d + 1) * N) - K * 2 ^ 53)%Z);
          lia. }
      rewrite Hdiv. unfold K. lia.
Qed.

(** X4: every element of an array can be picked: for each index of an
    array (of fewer than [2^32] elements, as every array has) there is a
    value of [Math.random()] for which [pickOne] returns the element at
    that index. *)
Theorem pickOne_reaches_every_element {A} (arr : list A) (k : nat) (x : A) :
  arr !! k = Some x -> (Z.of_nat (length arr) < 2 ^ 32)%Z ->
  exists r,
    unitDouble r /\
    forall (random : RandomSource) (w : World),
      random (drawn w) = r ->
      pickOne random arr w = (Normal (Some x), afterDraw w).
Proof.
  intros Hx Hlen.
  destruct (floorTimes_onto (length arr) k) as (r & Hr & Hidx);
    [by eapply lookup_lt_Some | done |].
  exists r. split; [done|]. intros random w Hdraw.
  unfold pickOne. rewrite bind_run. unfold Math_random.
  by rewrite Hdraw, Hidx, Hx.
Qed.

(** ** The tables *)

(** The keys are written as the selector compares them: trimmed, not
    empty, no fillers; and a group is the first one to match its own keys,
    so that no group hides another. *)
Lemma keys_wellformed :
  Forall (fun g =>
            Forall (fun k => trim k = k /\ isPairingKey k = true) (keys g) /\
            firstMatch (keys g) PAIRING_CANDIDATES = Some g /\
            (length (options g) <= 3)%nat)
    PAIRING_CANDIDATES.
Proof. apply (bool_decide_unpack _). vm_compute. reflexivity. Qed.

(** Every rule of the tables asks for an area or for a category. *)
Lemma rules_typed :
  Forall (fun g => Forall (fun r => type r = area \/ type r = category) (options g))
    PAIRING_CANDIDATES /\
  Forall (fun r => type r = area \/ type r = category) DEFAULT_PAIRINGS.
Proof. apply (bool_decide_unpack _). vm_compute. reflexivity. Qed.

(** The rule that the selector returns is an object of the tables. *)
Lemma pickPairingRule_from_tables (random : RandomSource)
    (toLowerCase : jsstring -> jsstring) (ingredients : list Ingredient)
    (w : World) :
  unitDouble (random (drawn w)) ->
  exists rule,
    pickPairingRule random toLowerCase ingredients w
      = (Normal (Some rule), afterDraw w) /\
    (rule ∈ DEFAULT_PAIRINGS \/
     exists group, group ∈ PAIRING_CANDIDATES /\ rule ∈ options group) /\
    (type rule = area \/ type rule = category).
Proof.
  intros Hr. destruct rules_typed as [Hopts Hdefs].
  rewrite Forall_forall in Hopts. rewrite Forall_forall in Hdefs.
  unfold pickPairingRule.
  destruct (firstMatch _ PAIRING_CANDIDATES) as [group|] eqn:Hfirst.
  - apply firstMatch_Some in Hfirst as (before & after & Heq & _).
    assert (Hin : group ∈ PAIRING_CANDIDATES).
    { rewrite Heq. apply elem_of_app. right. left. }
    destruct (pickOne_member random (options group) w Hr
                (options_nonempty group Hin)) as (rule & Hpick & Hrule).
    exists rule. split_and!; [done | right; by exists group |].
    specialize (Hopts group Hin). rewrite Forall_forall in Hopts. by apply Hopts.
  - destruct (pickOne_member random DEFAULT_PAIRINGS w Hr ltac:(discriminate))
      as (rule & Hpick & Hrule).
    exists rule. split_and!; [done | by left | by apply Hdefs].
Qed.

(** The keywords of ingredients named by well-formed keys are the keys. *)
Lemma extractPairingKeys_of_keys (toLowerCase : jsstring -> jsstring)
    (ks : list jsstring) :
  Forall (fun k => trim k = k /\ isPairingKey k = true) ks ->
  (forall k, k ∈ ks -> toLowerCase k = k) ->
  extractPairingKeys toLowerCase
    (map (fun k => {| ingredient := VStr k; measure := VStr [] |}) ks) = ks.
Proof.
  unfold extractPairingKeys. rewrite map_map.
  induction ks as [|k ks IH]; intros Hwf Hlower; simpl; [done|].
  apply Forall_cons in Hwf as [[Htrim Hkey] Hwf].
  assert (Hk : keywordOf toLowerCase
                 {| ingredient := VStr k; measure := VStr [] |} = k).
  { unfold keywordOf, nameOf. simpl.
    destruct k as [|c k]; [done|]. simpl.
    rewrite (Hlower (c :: k)); [done|left]. }
  rewrite Hk, Hkey. f_equal. apply IH; [done|].
  intros k' Hk'. apply Hlower. by right.
Qed.

(** X5: no rule of the tables is out of reach.  For a lowercasing that
    leaves the keys as they are, every rule object of every candidate group
    and every default rule is returned by the selector for some list of
    ingredients and some value of [Math.random()]. *)
Theorem every_rule_selectable (toLowerCase : jsstring -> jsstring) (rule : Rule) :
  (forall group k, group ∈ PAIRING_CANDIDATES -> k ∈ keys group ->
                   toLowerCase k = k) ->
  (exists group, group ∈ PAIRING_CANDIDATES /\ rule ∈ options group) \/
  rule ∈ DEFAULT_PAIRINGS ->
  exists ingredients r,
    unitDouble r /\
    forall (random : RandomSource) (w : World),
      random (drawn w) = r ->
      pickPairingRule random toLowerCase ingredients w
        = (Normal (Some rule), afterDraw w).
Proof.
  intros Hlower Hrule.
  assert (Hpick : forall arr : list Rule,
             rule ∈ arr -> (length arr <= 6)%nat ->
             exists r, unitDouble r /\
               forall (random : RandomSource) (w : World),
                 random (drawn w) = r ->
                 pickOne random arr w = (Normal (Some rule), afterDraw w)).
  { intros arr Hin Hlen. apply list_elem_of_lookup in Hin as [k Hk].
    destruct (floorTimes_onto (length arr) k) as (r & Hr & Hidx);
      [by eapply lookup_lt_Some | lia |].
    exists r. split; [done|]. intros random w Hdraw.
    unfold pickOne. rewrite bind_run. unfold Math_random.
    by rewrite Hdraw, Hidx, Hk. }
  destruct Hrule as [(group & Hgroup & Hin)|Hin].
  - pose proof keys_wellformed as Hkeys. rewrite Forall_forall in Hkeys.
    destruct (Hkeys group Hgroup) as (Hwf & Hfirst & Hlen).
    set (ingredients :=
           map (fun k => {| ingredient := VStr k; measure := VStr [] |}) (keys group)).
    assert (Hfound : extractPairingKeys toLowerCase ingredients = keys group).
    { apply extractPairingKeys_of_keys; [done|]. intros k Hk. by eapply Hlower. }
    destruct (Hpick (options group) Hin ltac:(lia)) as (r & Hr & Hrun).
    exists ingredients, r. split; [done|]. intros random w Hdraw.
    unfold pickPairingRule. rewrite Hfound, Hfirst. by apply Hrun.
  - destruct (Hpick DEFAULT_PAIRINGS Hin ltac:(simpl; lia)) as (r & Hr & Hrun).
    exists [], r. split; [done|]. intros random w Hdraw.
    unfold pickPairingRule.
    change (firstMatch (extractPairingKeys toLowerCase []) PAIRING_CANDIDATES)
      with (@None Group).
    by apply Hrun.
Qed.

(** ** The fetcher after the selector *)

Lemma fetchMealsByRule_typed_run (axios : Service) (random : RandomSource)
    (rule : Rule) (rq : Request) (w : World) :
  requestOf rule rq ->
  exists meals w' later,
    fetchMealsByRule axios random (Some rule) w = (Normal meals, w') /\
    exchanges w' = exchanges w ++ (rq, axios (exchanges w) rq) :: later /\
    (length meals <= 6)%nat.
Proof.
  intros Hrq.
  destruct (primaryLookup_typed axios rule rq w Hrq) as (w1 & Hprim & Hex1 & _).
  unfold fetchMealsByRule. rewrite bind_run, Hprim.
  destruct (yields _) as [meals|] eqn:Hy.
  - exists meals, w1, []. split_and!; [done..|].
    apply yields_Some in Hy as (found & _ & _ & ->). rewrite length_take. lia.
  - destruct (fallbackCascade_run axios random w1)
      as (shuffled & w2 & meals & new & tried & rest & _ & _ & Hex2
          & Hrun & _ & _ & _ & Hcases).
    exists meals, (withExchanges w2 new), new. split_and!.
    + done.
    + simpl. by rewrite Hex2, Hex1, <- app_assoc.
    + destruct Hcases as [(_ & _ & ->)|(_ & _ & found & _ & _ & _ & _ & ->)];
        [simpl; lia | rewrite length_take; lia].
Qed.

(** ** The fetcher, beyond the cascade *)

(** The first [try] block makes no exchange, or the one exchange of the
    rule's own request. *)
Lemma primaryLookup_shape (axios : Service) (rule : option Rule) (w : World) :
  exists returned w1 first,
    primaryLookup axios rule w = (Normal returned, w1) /\
    exchanges w1 = exchanges w ++ first /\
    drawn w1 = drawn w /\
    ((first = [] /\ returned = None) \/
     (exists r rq, rule = Some r /\ requestOf r rq /\
                   first = [(rq, axios (exchanges w) rq)] /\
                   returned = yields (axios (exchanges w) rq))).
Proof.
  destruct rule as [r|].
  - destruct (decide (type r = area \/ type r = category)) as [Hty|Hty].
    + assert (Hrq : exists rq, requestOf r rq).
      { destruct (decide (type r = area)) as [Ha|Ha].
        - exists (MealsByArea (value r)). by left.
        - exists (MealsByCategory (value r)). right. split; [tauto|done]. }
      destruct Hrq as (rq & Hrq).
      destruct (primaryLookup_typed axios r rq w Hrq) as (w1 & Hrun & Hex & Hdr).
      exists (yields (axios (exchanges w) rq)), w1, [(rq, axios (exchanges w) rq)].
      split_and!; [done..|]. right. by exists r, rq.
    + exists None, w, []. rewrite primaryLookup_run, decide_False by done.
      split_and!; [done | by rewrite app_nil_r | done | by left].
  - eexists None, _, []. rewrite primaryLookup_run.
    split_and!; [done | simpl; by rewrite app_nil_r | done | by left].
Qed.

Lemma default_requests_distinct : NoDup (map requestFor DEFAULT_PAIRINGS).
Proof. apply (bool_decide_unpack _). vm_compute. reflexivity. Qed.

Lemma fallbackCascade_console (axios : Service) (random : RandomSource)
    (w : World) :
  console (snd (fallbackCascade axios random w)) = console w.
Proof.
  destruct (shuffle_run random DEFAULT_PAIRINGS w)
    as (shuffled & w2 & Hsort & _ & _ & Hconsole).
  destruct (fallbackLoop_run axios shuffled w2)
    as (meals & new & _ & _ & Hloop & _).
  unfold fallbackCascade. by rewrite bind_run, Hsort, Hloop.
Qed.

(** X6: what the fetcher returns is never more than six meals, and they
    are the first meals of the last exchange it made, every exchange before
    that one having had none; it returns the empty list exactly when no
    exchange of the run had a meal. *)
Theorem fetchMealsByRule_result_shape (axios : Service) (random : RandomSource)
    (rule : option Rule) (w : World) :
  exists meals w' new,
    fetchMealsByRule axios random rule w = (Normal meals, w') /\
    exchanges w' = exchanges w ++ new /\
    (length meals <= 6)%nat /\
    (meals = [] <-> Forall (fun x => unsuccessful (snd x)) new) /\
    (meals <> [] ->
     exists init rq found,
       new = init ++ [(rq, Data (Some found))] /\
       Forall (fun x => unsuccessful (snd x)) init /\
       meals = take 6 found).
Proof.
  unfold fetchMealsByRule. rewrite bind_run.
  destruct (primaryLookup_cases axios rule w)
    as (returned & w1 & first & -> & Hex1 & _ & Hret).
  destruct returned as [meals|].
  - destruct Hret as (rq & found & -> & Hne & ->).
    assert (Hmeals : take 6 found <> []) by (by destruct found).
    exists (take 6 found), w1, [(rq, Data (Some found))].
    split_and!; [done | done | rewrite length_take; lia | |].
    + split; [done|]. intros [Hbad _]%Forall_cons. simpl in Hbad.
      by destruct found.
    + intros _. exists [], rq, found. split_and!; [done | constructor | done].
  - destruct (fallbackCascade_run axios random w1)
      as (shuffled & w2 & meals & new & tried & rest & _ & _ & Hex2
          & Hrun & _ & _ & _ & Hcases).
    exists meals, (withExchanges w2 new), (first ++ new).
    split_and!; [done | simpl; by rewrite Hex2, Hex1, app_assoc | | |].
    + destruct Hcases as [(_ & _ & ->)|(_ & _ & found & _ & _ & _ & _ & ->)];
        [simpl; lia | rewrite length_take; lia].
    + destruct Hcases
        as [(_ & Hall & ->)|(init & [rq resp] & found & -> & _ & Hlast & Hne & ->)].
      * split; [intros _; by apply Forall_app | done].
      * simpl in Hlast. subst resp. split.
        -- intros Hnil. by destruct found.
        -- intros [_ [_ [Hbad _]%Forall_cons]%Forall_app]%Forall_app.
           simpl in Hbad. by destruct found.
    + intros Hmeals.
      destruct Hcases
        as [(_ & _ & ->)|(init & [rq resp] & found & -> & Hall & Hlast & _ & ->)];
        [done|].
      simpl in Hlast. subst resp.
      exists (first ++ init), rq, found.
      split_and!; [by rewrite app_assoc | by apply Forall_app | done].
Qed.

(** X7: one run of the fetcher makes at most seven exchanges: at most one
    for the rule, which is then the rule's own request, and at most six
    for the fallbacks, whose requests are requests of default rules and are
    all different: no fallback is tried twice. *)
Theorem fetchMealsByRule_exchanges (axios : Service) (random : RandomSource)
    (rule : option Rule) (w : World) :
  exists meals w' first later,
    fetchMealsByRule axios random rule w = (Normal meals, w') /\
    exchanges w' = exchanges w ++ first ++ later /\
    (first = [] \/
     exists r rq, rule = Some r /\ requestOf r rq /\
                  first = [(rq, axios (exchanges w) rq)]) /\
    (length later <= 6)%nat /\
    NoDup (map fst later) /\
    (forall rq, rq ∈ map fst later ->
                exists fb, fb ∈ DEFAULT_PAIRINGS /\ rq = requestFor fb).
Proof.
  unfold fetchMealsByRule. rewrite bind_run.
  destruct (primaryLookup_shape axios rule w)
    as (returned & w1 & first & -> & Hex1 & _ & Hfirst).
  assert (Hshape : first = [] \/
            exists r rq, rule = Some r /\ requestOf r rq /\
                         first = [(rq, axios (exchanges w) rq)]).
  { destruct Hfirst as [[-> _]|(r & rq & ? & ? & ? & _)]; [by left|right].
    by exists r, rq. }
  destruct returned as [meals|].
  - exists meals, w1, first, []. rewrite app_nil_r.
    split_and!; [done | done | done | simpl; lia | constructor |].
    intros rq Hrq. by apply elem_of_nil in Hrq.
  - destruct (fallbackCascade_run axios random w1)
      as (shuffled & w2 & meals & later & tried & rest & _ & Hperm & Hex2
          & Hrun & _ & Hsplit & Hreq & _).
    exists meals, (withExchanges w2 later), first, later.
    assert (Hlen : length later = length tried).
    { by rewrite <- (length_map fst later), Hreq, length_map. }
    split_and!.
    + done.
    + simpl. by rewrite Hex2, Hex1, app_assoc.
    + done.
    + rewrite Hlen. apply Permutation_length in Hperm.
      rewrite Hsplit, length_app in Hperm. simpl in Hperm. lia.
    + rewrite Hreq.
      assert (Hnd : NoDup (map requestFor shuffled)).
      { apply (NoDup_Permutation_proper _ (map requestFor DEFAULT_PAIRINGS));
          [|exact default_requests_distinct].
        by apply (fmap_Permutation requestFor). }
      rewrite Hsplit, map_app in Hnd. by apply NoDup_app in Hnd as [? _].
    + intros rq Hrq. rewrite Hreq in Hrq.
      apply list_elem_of_fmap in Hrq as (fb & -> & Hfb).
      exists fb. split; [|done]. rewrite <- Hperm, Hsplit.
      apply elem_of_app. by left.
Qed.

(** X8: the console gets a line only for the rule's own lookup: one line
    with the message of the error when that lookup throws, and one when the
    rule is [undefined]; what the fallbacks do leaves no line. *)
Theorem fetchMealsByRule_console (axios : Service) (random : RandomSource)
    (rule : option Rule) (w : World) :
  (rule = None ->
   console (snd (fetchMealsByRule axios random rule w))
   = console w ++ [[lit "Meal pairing fetch failed:"; message typeError]]) /\
  (forall r rq e,
     rule = Some r -> requestOf r rq -> axios (exchanges w) rq = Rejects e ->
     console (snd (fetchMealsByRule axios random rule w))
     = console w ++ [[lit "Meal pairing fetch failed:"; message e]]) /\
  (forall r rq items,
     rule = Some r -> requestOf r rq -> axios (exchanges w) rq = Data items ->
     console (snd (fetchMealsByRule axios random rule w)) = console w) /\
  (forall r,
     rule = Some r -> type r <> area -> type r <> category ->
     console (snd (fetchMealsByRule axios random rule w)) = console w).
Proof.
  assert (Hrq : forall r rq, requestOf r rq ->
            (type r = area \/ type r = category) /\
            (if decide (type r = area) then MealsByArea (value r)
             else MealsByCategory (value r)) = rq).
  { intros r rq [[Ha ->]|[Hc ->]].
    - split; [by left | by rewrite decide_True].
    - split; [by right|]. rewrite decide_False; [done|].
      rewrite Hc. intros E. by apply area_not_category. }
  unfold fetchMealsByRule. rewrite bind_run, primaryLookup_run.
  split_and!.
  - intros ->. by rewrite fallbackCascade_console.
  - intros r rq e -> Hr Hresp. destruct (Hrq r rq Hr) as [Hty Heq].
    rewrite decide_True by done. cbv zeta. rewrite Heq, Hresp. simpl.
    by rewrite fallbackCascade_console.
  - intros r rq items -> Hr Hresp. destruct (Hrq r rq Hr) as [Hty Heq].
    rewrite decide_True by done. cbv zeta. rewrite Heq, Hresp.
    destruct (yields (Data items)); [done|].
    by rewrite fallbackCascade_console.
  - intros r -> Ha Hc. rewrite decide_False by tauto.
    by rewrite fallbackCascade_console.
Qed.

(** ** The search form, beyond the redirect *)

Lemma trimStart_nil (s : jsstring) :
  trimStart s = [] -> Forall (fun c => isWhiteSpace c = true) s.
Proof.
  induction s as [|c s IH]; simpl; [constructor|].
  destruct (isWhiteSpace c) eqn:Hc; [|done].
  intros Hs. constructor; [done | by apply IH].
Qed.

Lemma Forall_trimStart (s : jsstring) :
  Forall (fun c => isWhiteSpace c = true) (trimStart s) ->
  Forall (fun c => isWhiteSpace c = true) s.
Proof.
  induction s as [|c s IH]; simpl; [done|].
  destruct (isWhiteSpace c) eqn:Hc; [|done].
  intros Hs. constructor; [done | by apply IH].
Qed.

Lemma trim_nil (s : jsstring) :
  trim s = [] <-> Forall (fun c => isWhiteSpace c = true) s.
Proof.
  split.
  - unfold trim, trimEnd. intros Hs.
    apply (f_equal (@rev N)) in Hs. rewrite rev_involutive in Hs. simpl in Hs.
    apply trimStart_nil in Hs.
    apply Forall_trimStart. apply Forall_forall. intros c Hc.
    rewrite Forall_forall in Hs. apply Hs.
    by rewrite list_elem_of_In, <- in_rev, <- list_elem_of_In.
  - intros Hs. unfold trim. by rewrite (trimStart_blank s Hs).
Qed.

Lemma givenText_false (v : jsval) : givenText v = false <-> blank v.
Proof.
  split; [|apply givenText_blank].
  unfold givenText. destruct v as [| |s]; simpl; [done..|].
  destruct s as [|c s]; [constructor|]. simpl.
  destruct (trim (c :: s)) as [|d t] eqn:Ht; [|done].
  intros _. by apply trim_nil.
Qed.

(** X9: a name with something other than white space in it decides the
    search, whatever the ingredient field holds: one request by name, with
    the trimmed name; without such a name, an ingredient with something in
    it gives one request by ingredient, with the trimmed ingredient.  The
    drinks of the response are rendered, none when the list is [null], and
    the error page when the request throws. *)
Theorem postSearch_lookup (axios : Service) (name ingredient : jsval) (w : World) :
  (~ blank name ->
   let rq := DrinksByName (trim (strOf name)) in
   postSearch axios name ingredient w
   = (Normal
        match axios (exchanges w) rq with
        | Rejects _ => RenderError (lit "Search failed. Please try different terms.")
        | Data drinks =>
            RenderResults (default [] drinks)
              (lit "Results for name: " ++ dquote :: trim (strOf name) ++ [dquote])
        end,
      afterExchange w (rq, axios (exchanges w) rq))) /\
  (blank name -> ~ blank ingredient ->
   let rq := DrinksByIngredient (trim (strOf ingredient)) in
   postSearch axios name ingredient w
   = (Normal
        match axios (exchanges w) rq with
        | Rejects _ => RenderError (lit "Search failed. Please try different terms.")
        | Data drinks =>
            RenderResults (default [] drinks)
              (lit "Results with ingredient: " ++ dquote
                 :: trim (strOf ingredient) ++ [dquote])
        end,
      afterExchange w (rq, axios (exchanges w) rq))).
Proof.
  split.
  - intros Hname. cbv zeta.
    assert (Hg : givenText name = true).
    { destruct (givenText name) eqn:E; [done|]. by apply givenText_false in E. }
    unfold postSearch, tryCatch. rewrite Hg, bind_run. unfold axios_get.
    by destruct (axios _ _) as [e|drinks].
  - intros Hname Hing. cbv zeta.
    assert (Hg : givenText ingredient = true).
    { destruct (givenText ingredient) eqn:E; [done|]. by apply givenText_false in E. }
    unfold postSearch, tryCatch.
    rewrite (givenText_blank name Hname), Hg, bind_run. unfold axios_get.
    by destruct (axios _ _) as [e|drinks].
Qed.

(** X10: the handler of the search form on the parsed body.  Without a
    body the destructuring throws, before the [try], and the handler
    renders nothing.  With a body it never throws and makes at most one
    exchange; on text fields it is [postSearch].  It redirects only when
    both fields are blank text.  It makes no exchange in three cases only:
    both fields blank; a name that is an array or an object; a blank name
    with an ingredient that is an array or an object; in the last two it
    renders the error page. *)
Theorem searchHandler_outcomes (axios : Service) (w : World) :
  searchHandler axios None w = (Thrown noBody, w) /\
  (forall name ingredient,
      searchHandler axios (Some (Text name, Text ingredient)) w
      = postSearch axios name ingredient w) /\
  (forall name ingredient,
      exists resp w' new,
        searchHandler axios (Some (name, ingredient)) w = (Normal resp, w') /\
        exchanges w' = exchanges w ++ new /\
        (length new <= 1)%nat /\
        ((exists location, resp = Redirect location) <->
         exists n i, name = Text n /\ ingredient = Text i /\ blank n /\ blank i) /\
        (new = [] <->
         (exists n i, name = Text n /\ ingredient = Text i /\ blank n /\ blank i) \/
         name = Structured \/
         (exists n, name = Text n /\ blank n /\ ingredient = Structured)) /\
        (name = Structured \/
         (exists n, name = Text n /\ blank n /\ ingredient = Structured) ->
         resp = RenderError (lit "Search failed. Please try different terms.") /\
         w' = w)).
Proof.
  split_and!; [done | done |].
  intros name ingredient. unfold searchHandler, tryCatch.
  destruct name as [n|].
  - destruct (givenText n) eqn:Hn.
    + assert (Hnb : ~ blank n).
      { intros Hb. apply givenText_false in Hb. congruence. }
      rewrite bind_run. unfold axios_get.
      set (rq := DrinksByName _).
      destruct (axios (exchanges w) rq) as [e|drinks] eqn:Hresp;
        eexists _, _, [_];
        (split_and!; [reflexivity | reflexivity | simpl; lia | | |]);
        try (split; [intros (? & ?); done | intros (? & ? & ? & ? & ? & ?); simplify_eq; done]);
        try (split; [done | intros [(? & ? & ? & ? & ? & ?)|[?|(? & ? & ? & ?)]]; simplify_eq; done]);
        intros [?|(? & ? & ? & ?)]; simplify_eq; done.
    + apply givenText_false in Hn.
      destruct ingredient as [i|].
      * destruct (givenText i) eqn:Hi.
        -- assert (Hib : ~ blank i).
           { intros Hb. apply givenText_false in Hb. congruence. }
           rewrite bind_run. unfold axios_get.
           set (rq := DrinksByIngredient _).
           destruct (axios (exchanges w) rq) as [e|drinks] eqn:Hresp;
             eexists _, _, [_];
             (split_and!; [reflexivity | reflexivity | simpl; lia | | |]);
             try (split; [intros (? & ?); done | intros (? & ? & ? & ? & ? & ?); simplify_eq; done]);
             try (split; [done | intros [(? & ? & ? & ? & ? & ?)|[?|(? & ? & ? & ?)]]; simplify_eq; done]);
             intros [?|(? & ? & ? & ?)]; simplify_eq; done.
        -- apply givenText_false in Hi.
           exists (Redirect (lit "/")), w, [].
           split_and!; [done | by rewrite app_nil_r | simpl; lia | | |].
           ++ split; [intros _; by exists n, i | intros _; by eexists].
           ++ split; [intros _; left; by exists n, i | done].
           ++ intros [?|(? & ? & ? & ?)]; simplify_eq.
      * eexists _, w, [].
        split_and!; [reflexivity | by rewrite app_nil_r | simpl; lia | | |].
        -- split; [intros (? & ?); done | intros (? & ? & ? & ? & ? & ?); simplify_eq].
        -- split; [intros _; right; right; by exists n | done].
        -- done.
  - eexists _, w, [].
    split_and!; [reflexivity | by rewrite app_nil_r | simpl; lia | | |].
    + split; [intros (? & ?); done | intros (? & ? & ? & ? & ? & ?); simplify_eq].
    + split; [intros _; right; by left | done].
    + done.
Qed.

(** ** The normalizer, beyond one record *)

(** X11: the ingredients depend on the thirty slot fields only: two
    records that agree on the names and measures of the slots 1 to 15 get
    the same array, whatever else they hold (a slot 16, other fields). *)
Theorem normalizeDrinkDetails_reads_slots_only (drink1 drink2 : JsonObject) :
  (forall i, (1 <= i <= 15)%nat ->
     drink1 !! strIngredient i = drink2 !! strIngredient i /\
     drink1 !! strMeasure i = drink2 !! strMeasure i) ->
  fst (normalizeDrinkDetails drink1) !! lit "ingredients"
  = fst (normalizeDrinkDetails drink2) !! lit "ingredients".
Proof.
  intros Hsame. unfold normalizeDrinkDetails. rewrite !normalizeLoop_eq.
  cbn [fst]. rewrite !lookup_insert_eq. do 2 f_equal.
  assert (Hgen : forall n s, (1 <= s)%nat -> (s + n <= 16)%nat ->
            map (entryOf drink1) (List.filter (populated drink1) (seq s n))
            = map (entryOf drink2) (List.filter (populated drink2) (seq s n))).
  { induction n as [|n IH]; intros s Hs Hn; [done|]. cbn [seq List.filter].
    destruct (Hsame s ltac:(lia)) as [Hi Hm].
    assert (Hp : populated drink1 s = populated drink2 s).
    { unfold populated. by rewrite Hi. }
    rewrite Hp. destruct (populated drink2 s); [|apply IH; lia].
    cbn [map]. f_equal; [|apply IH; lia].
    unfold entryOf. by rewrite Hi, Hm. }
  apply Hgen; lia.
Qed.

Lemma slot_keys (i j : nat) :
  (1 <= i <= 15)%nat -> (1 <= j <= 15)%nat ->
  (strIngredient i = strIngredient j -> i = j) /\
  (strMeasure i = strMeasure j -> i = j) /\
  strIngredient i <> strMeasure j.
Proof.
  intros Hi Hj.
  assert (H : Forall (fun i =>
                Forall (fun j =>
                          (strIngredient i = strIngredient j -> i = j) /\
                          (strMeasure i = strMeasure j -> i = j) /\
                          strIngredient i <> strMeasure j) (seq 1 15)) (seq 1 15)).
  { apply (bool_decide_unpack _). vm_compute. reflexivity. }
  rewrite Forall_forall in H.
  specialize (H i ltac:(apply list_elem_of_In, in_seq; lia)).
  rewrite Forall_forall in H.
  apply H. apply list_elem_of_In, in_seq. lia.
Qed.

Lemma lookup_flattenFrom (l : list (jsstring * jsstring)) :
  forall s j, (1 <= s)%nat -> (s + length l <= 16)%nat -> (1 <= j <= 15)%nat ->
    flattenFrom s l !! strIngredient j
    = (if decide (s <= j < s + length l)%nat
       then (fun p => VStr (fst p)) <$> l !! (j - s)%nat else None) /\
    flattenFrom s l !! strMeasure j
    = (if decide (s <= j < s + length l)%nat
       then (fun p => VStr (snd p)) <$> l !! (j - s)%nat else None).
Proof.
  induction l as [|[name mea] l IH]; intros s j Hs Hl Hj; cbn [flattenFrom length].
  - rewrite !lookup_empty. by rewrite !decide_False by lia.
  - cbn [length] in Hl.
    destruct (IH (S s) j ltac:(lia) ltac:(lia) Hj) as [IHi IHm].
    destruct (slot_keys s j ltac:(lia) Hj) as (Hii & Hmm & Him).
    destruct (slot_keys j s Hj ltac:(lia)) as (_ & _ & Hmi).
    destruct (decide (j = s)) as [->|Hne].
    + rewrite lookup_insert_eq.
      rewrite lookup_insert_ne by done. rewrite lookup_insert_eq.
      rewrite !decide_True by lia. by rewrite Nat.sub_diag.
    + rewrite lookup_insert_ne by (intros E; apply Hne; symmetry; by apply Hii).
      rewrite lookup_insert_ne by (intros E; by apply (Hmi (eq_sym E))).
      rewrite (lookup_insert_ne _ (strIngredient s)) by done.
      rewrite lookup_insert_ne by (intros E; apply Hne; symmetry; by apply Hmm).
      rewrite IHi, IHm.
      destruct (decide (S s <= j < S s + length l)%nat) as [Hin|Hout].
      * rewrite !decide_True by lia.
        replace (j - s)%nat with (S (j - S s)) by lia. done.
      * by rewrite !decide_False by lia.
Qed.

Lemma filter_seq_prefix (f : nat -> bool) (s n m : nat) :
  (forall i, (s <= i < s + n)%nat -> f i = true) ->
  (forall i, (s + n <= i < s + n + m)%nat -> f i = false) ->
  List.filter f (seq s (n + m)) = seq s n.
Proof.
  revert s. induction n as [|n IH]; intros s Hyes Hno.
  - simpl. replace (s + 0)%nat with s in Hno by lia. clear Hyes.
    revert s Hno. induction m as [|m IHm]; intros s Hno; [done|].
    simpl. rewrite (Hno s) by lia. apply IHm. intros i Hi. apply Hno. lia.
  - cbn [Nat.add seq List.filter]. rewrite (Hyes s) by lia. f_equal.
    apply IH; intros i Hi; [apply Hyes | apply Hno]; lia.
Qed.

(** X12: the normalizer undoes the flat layout: for a list of at most
    fifteen (name, measure) pairs with non-empty names, laid out in the
    slots from 1 on, it gives back the pairs, in order, as the ingredient
    records. *)
Theorem normalizeDrinkDetails_flatten (l : list (jsstring * jsstring)) :
  (length l <= 15)%nat ->
  Forall (fun p => fst p <> []) l ->
  fst (normalizeDrinkDetails (flatten l)) !! lit "ingredients"
  = Some (IngredientList
            (map (fun p => {| ingredient := VStr (fst p);
                              measure := VStr (snd p) |}) l)).
Proof.
  intros Hlen Hnames. unfold normalizeDrinkDetails. rewrite normalizeLoop_eq.
  cbn [fst]. rewrite lookup_insert_eq. do 2 f_equal.
  set (drink := flatten l).
  assert (Hlook : forall j, (1 <= j <= 15)%nat ->
            drink !! strIngredient j
            = (if decide (1 <= j < 1 + length l)%nat
               then (fun p => VStr (fst p)) <$> l !! (j - 1)%nat else None) /\
            drink !! strMeasure j
            = (if decide (1 <= j < 1 + length l)%nat
               then (fun p => VStr (snd p)) <$> l !! (j - 1)%nat else None)).
  { intros j Hj. apply lookup_flattenFrom; lia. }
  assert (Hslots : List.filter (populated drink) (seq 1 15) = seq 1 (length l)).
  { replace 15%nat with (length l + (15 - length l))%nat by lia.
    apply filter_seq_prefix.
    - intros i Hi. unfold populated.
      destruct (Hlook i ltac:(lia)) as [-> _]. rewrite decide_True by lia.
      destruct (lookup_lt_is_Some_2 l (i - 1) ltac:(lia)) as [[name mea] Hp].
      rewrite Hp. simpl.
      rewrite Forall_forall in Hnames.
      specialize (Hnames _ (list_elem_of_lookup_2 _ _ _ Hp)). simpl in Hnames.
      by destruct name.
    - intros i Hi. unfold populated.
      destruct (Hlook i ltac:(lia)) as [-> _]. by rewrite decide_False by lia. }
  rewrite Hslots. cbn [app].
  apply list_eq. intros k. rewrite !list_lookup_fmap.
  destruct (decide (k < length l)%nat) as [Hk|Hk].
  - rewrite lookup_seq_lt by done.
    destruct (lookup_lt_is_Some_2 l k Hk) as [[name mea] Hp].
    rewrite Hp. cbn [fmap option_fmap option_map fst snd]. f_equal.
    unfold entryOf.
    destruct (Hlook (1 + k)%nat ltac:(lia)) as [-> ->].
    rewrite !decide_True by lia.
    replace (1 + k - 1)%nat with k by lia. rewrite Hp.
    cbn [fmap option_fmap option_map fst snd default].
    f_equal. by destruct mea.
  - rewrite lookup_seq_ge by lia. by rewrite lookup_ge_None_2 by lia.
Qed.

(** ** The pages *)

Lemma cocktailView_run (axios : Service) (random : RandomSource)
    (toLowerCase : jsstring -> jsstring) (drink : JsonObject) (w : World) :
  cocktailView axios random toLowerCase drink w
  = (pairingRule ← pickPairingRule random toLowerCase
                     (map (entryOf drink)
                        (List.filter (populated drink) (seq 1 15)));
     meals ← fetchMealsByRule axios random pairingRule;
     mret (RenderCocktail (fst (normalizeDrinkDetails drink)) meals pairingRule)) w.
Proof.
  unfold cocktailView.
  assert (Hing : fst (normalizeDrinkDetails drink) !! lit "ingredients"
                 = Some (IngredientList
                           (map (entryOf drink)
                              (List.filter (populated drink) (seq 1 15))))).
  { unfold normalizeDrinkDetails. rewrite normalizeLoop_eq. cbn [fst app].
    apply lookup_insert_eq. }
  cbv zeta. by rewrite Hing.
Qed.

Lemma pickPairingRule_normal (random : RandomSource)
    (toLowerCase : jsstring -> jsstring) (ingredients : list Ingredient)
    (w : World) :
  exists pairingRule,
    pickPairingRule random toLowerCase ingredients w
    = (Normal pairingRule, afterDraw w).
Proof.
  unfold pickPairingRule.
  destruct (firstMatch _ _); by eexists.
Qed.

Lemma fetchMealsByRule_normal (axios : Service) (random : RandomSource)
    (rule : option Rule) (w : World) :
  exists meals w',
    fetchMealsByRule axios random rule w = (Normal meals, w') /\
    (length meals <= 6)%nat.
Proof.
  unfold fetchMealsByRule. rewrite bind_run.
  destruct (primaryLookup_cases axios rule w)
    as (returned & w1 & first & -> & _ & _ & Hret).
  destruct returned as [meals|].
  - destruct Hret as (rq & found & _ & _ & ->).
    eexists _, _. split; [done|]. rewrite length_take. lia.
  - destruct (fallbackCascade_run axios random w1)
      as (shuffled & w2 & meals & new & tried & rest & _ & _ & _ & Hrun & _ & _
          & _ & Hcases).
    exists meals, (withExchanges w2 new). split; [done|].
    destruct Hcases as [(_ & _ & ->)|(_ & _ & found & _ & _ & _ & _ & ->)];
      [simpl; lia | rewrite length_take; lia].
Qed.

Lemma cocktailView_normal (axios : Service) (random : RandomSource)
    (toLowerCase : jsstring -> jsstring) (drink : JsonObject) (w : World) :
  exists pairingRule meals w',
    cocktailView axios random toLowerCase drink w
    = (Normal (RenderCocktail (fst (normalizeDrinkDetails drink)) meals pairingRule),
       w') /\
    (length meals <= 6)%nat.
Proof.
  rewrite cocktailView_run, bind_run.
  destruct (pickPairingRule_normal random toLowerCase
              (map (entryOf drink) (List.filter (populated drink) (seq 1 15))) w)
    as (pairingRule & ->).
  rewrite bind_run.
  destruct (fetchMealsByRule_normal axios random pairingRule (afterDraw w))
    as (meals & w' & -> & Hlen).
  by exists pairingRule, meals, w'.
Qed.

(** X13: the page of a cocktail.  The view gets the normalized drink, a
    rule that is defined and has type [area] or [category], and at most six
    meals; the first exchange with the recipe service is the lookup of that
    rule, so the fetcher is never handed a rule it has no lookup for.  A
    drink with no populated slot gets one of the default rules. *)
Theorem cocktailView_renders (axios : Service) (random : RandomSource)
    (toLowerCase : jsstring -> jsstring) (drink : JsonObject) (w : World) :
  unitDouble (random (drawn w)) ->
  exists rule rq meals w' later,
    cocktailView axios random toLowerCase drink w
    = (Normal (RenderCocktail (fst (normalizeDrinkDetails drink)) meals (Some rule)),
       w') /\
    requestOf rule rq /\
    (length meals <= 6)%nat /\
    exchanges w' = exchanges w ++ (rq, axios (exchanges w) rq) :: later /\
    ((forall i, (1 <= i <= 15)%nat ->
        ~ exists name, drink !! strIngredient i = Some (VStr name) /\ name <> []) ->
     rule ∈ DEFAULT_PAIRINGS).
Proof.
  intros Hr. rewrite cocktailView_run, bind_run.
  set (ingredients := map (entryOf drink) (List.filter (populated drink) (seq 1 15))).
  destruct (pickPairingRule_from_tables random toLowerCase ingredients w Hr)
    as (rule & Hpick & _ & Htype).
  assert (Hrq : exists rq, requestOf rule rq).
  { destruct Htype as [Ha|Hc].
    - exists (MealsByArea (value rule)). by left.
    - exists (MealsByCategory (value rule)). by right. }
  destruct Hrq as (rq & Hrq).
  destruct (fetchMealsByRule_typed_run axios random rule rq (afterDraw w) Hrq)
    as (meals & w' & later & Hrun & Hex & Hlen).
  exists rule, rq, meals, w', later. rewrite Hpick, bind_run, Hrun.
  split_and!; try done.
  intros Hnone.
  assert (Hempty : ingredients = []).
  { unfold ingredients.
    replace (List.filter (populated drink) (seq 1 15)) with (@nil nat); [done|].
    symmetry. apply (filter_seq_prefix (populated drink) 1 0 15); [intros i; lia|].
    intros i Hi. destruct (populated drink i) eqn:Hp; [|done].
    apply populated_true in Hp. exfalso. apply (Hnone i); [lia|done]. }
  rewrite Hempty in Hpick.
  assert (Hdefault : pickPairingRule random toLowerCase [] w
                     = pickOne random DEFAULT_PAIRINGS w) by reflexivity.
  rewrite Hdefault in Hpick.
  destruct (pickOne_member random DEFAULT_PAIRINGS w Hr ltac:(discriminate))
    as (rule' & Hpick' & Hin).
  rewrite Hpick' in Hpick. by injection Hpick as <-.
Qed.

(** Brings a hypothesis on the outcome of a lookup against the outcome at
    hand. *)
Ltac settle_lookup :=
  intros; destruct_or?;
  repeat match goal with H : ex _ |- _ => destruct H end;
  simplify_eq.

(** X14: the handler of [GET /drink/:id] never throws.  When the lookup of
    the drink throws it renders its error page; when the lookup has no
    drink ([null] or an empty list) it renders [Drink not found.] at once,
    with no draw and no lookup of meals; otherwise it renders the page of
    the first drink of the list. *)
Theorem drinkPage_outcomes (axios : Service) (random : RandomSource)
    (toLowerCase : jsstring -> jsstring)
    (cocktails : CocktailRequest -> M (option (list JsonObject)))
    (id : jsstring) (w : World) :
  (exists view w',
      drinkPage axios random toLowerCase cocktails id w = (Normal view, w')) /\
  (forall e w1,
      cocktails (LookupDrink id) w = (Thrown e, w1) ->
      drinkPage axios random toLowerCase cocktails id w
      = (Normal (Plain (RenderError (lit "Could not load drink details."))), w1)) /\
  (forall drinks w1,
      cocktails (LookupDrink id) w = (Normal drinks, w1) ->
      drinks = None \/ drinks = Some [] ->
      drinkPage axios random toLowerCase cocktails id w
      = (Normal (Plain (RenderError (lit "Drink not found."))), w1)) /\
  (forall drink others w1,
      cocktails (LookupDrink id) w = (Normal (Some (drink :: others)), w1) ->
      drinkPage axios random toLowerCase cocktails id w
      = cocktailView axios random toLowerCase drink w1).
Proof.
  unfold drinkPage, tryCatch. rewrite bind_run.
  destruct (cocktails (LookupDrink id) w) as [[drinks|e] w1] eqn:Hlookup.
  - destruct drinks as [[|drink others]|]; cbn [firstDrink].
    + split_and!; [by eexists _, _ | settle_lookup..]; done.
    + destruct (cocktailView_normal axios random toLowerCase drink w1)
        as (pairingRule & meals & w' & Hview & _).
      rewrite Hview.
      split_and!; [by eexists _, _ | settle_lookup..]; done.
    + split_and!; [by eexists _, _ | settle_lookup..]; done.
  - split_and!; [by eexists _, _ | settle_lookup..]; done.
Qed.

(** X15: the handler of [GET /random] never throws.  When the lookup
    throws, or has no drink, it renders its one error page, with no draw
    and no lookup of meals; otherwise it renders the page of the first
    drink of the list. *)
Theorem randomPage_outcomes (axios : Service) (random : RandomSource)
    (toLowerCase : jsstring -> jsstring)
    (cocktails : CocktailRequest -> M (option (list JsonObject)))
    (w : World) :
  (exists view w',
      randomPage axios random toLowerCase cocktails w = (Normal view, w')) /\
  (forall w1,
      (exists e, cocktails RandomDrink w = (Thrown e, w1)) \/
      cocktails RandomDrink w = (Normal None, w1) \/
      cocktails RandomDrink w = (Normal (Some []), w1) ->
      randomPage axios random toLowerCase cocktails w
      = (Normal (Plain (RenderError
                          (lit "Could not fetch a random cocktail right now."))),
         w1)) /\
  (forall drink others w1,
      cocktails RandomDrink w = (Normal (Some (drink :: others)), w1) ->
      randomPage axios random toLowerCase cocktails w
      = cocktailView axios random toLowerCase drink w1).
Proof.
  unfold randomPage, tryCatch. rewrite bind_run.
  destruct (cocktails RandomDrink w) as [[drinks|e] w1] eqn:Hlookup.
  - destruct drinks as [[|drink others]|]; cbn [firstDrink].
    + split_and!;
        [by eexists _, _ | settle_lookup..];
        done.
    + destruct (cocktailView_normal axios random toLowerCase drink w1)
        as (pairingRule & meals & w' & Hview & _).
      rewrite Hview.
      split_and!;
        [by eexists _, _ | settle_lookup..];
        done.
    + split_and!;
        [by eexists _, _ | settle_lookup..];
        done.
  - split_and!;
      [by eexists _, _ | settle_lookup..];
      done.
Qed.

(** ** These theorems at the sample inputs *)

Lemma pickPairingRule_order_irrelevant_witness :
  pickPairingRule (fun _ => highDraw) toLowerCaseLatin margarita
  = pickPairingRule (fun _ => highDraw) toLowerCaseLatin (rev margarita).
Proof.
  apply pickPairingRule_order_irrelevant. apply Permutation_rev.
Defined.

Lemma pickPairingRule_ignores_fillers_witness :
  pickPairingRule (fun _ => highDraw) toLowerCaseLatin
    ([item "Tequila"] ++ item "Ice" :: [item "Rum"])
  = pickPairingRule (fun _ => highDraw) toLowerCaseLatin
      ([item "Tequila"] ++ [item "Rum"]).
Proof.
  apply pickPairingRule_ignores_fillers. left.
  apply (bool_decide_unpack _). vm_compute. reflexivity.
Defined.

Lemma pickOne_empty_or_element_witness :
  fst (pickOne (fun _ => highDraw) (@nil Rule) idle) = Normal None /\
  exists x, fst (pickOne (fun _ => highDraw) DEFAULT_PAIRINGS idle) = Normal (Some x).
Proof.
  split.
  - destruct (pickOne_empty_or_element (fun _ => highDraw) (@nil Rule) idle)
      as (_ & Hempty & _).
    apply Hempty. reflexivity.
  - destruct (pickOne_empty_or_element (fun _ => highDraw) DEFAULT_PAIRINGS idle)
      as (_ & _ & Hfull).
    destruct (Hfull highDraw_unit ltac:(discriminate)) as (k & x & _ & _ & _ & Hrun).
    exists x. exact Hrun.
Defined.

Lemma pickOne_reaches_every_element_witness :
  exists r,
    unitDouble r /\
    pickOne (fun _ => r) DEFAULT_PAIRINGS idle
    = (Normal (Some {| site := 111; type := category; value := lit "Chicken" |}),
       afterDraw idle).
Proof.
  destruct (pickOne_reaches_every_element DEFAULT_PAIRINGS 5
              {| site := 111; type := category; value := lit "Chicken" |})
    as (r & Hr & Hrun).
  - reflexivity.
  - simpl. lia.
  - exists r. split; [exact Hr|]. apply Hrun. reflexivity.
Defined.

Lemma every_rule_selectable_witness :
  exists ingredients r,
    unitDouble r /\
    pickPairingRule (fun _ => r) toLowerCaseLatin ingredients idle
    = (Normal (Some mexican), afterDraw idle).
Proof.
  destruct (every_rule_selectable toLowerCaseLatin mexican)
    as (ingredients & r & Hr & Hrun).
  - intros group k Hgroup Hk. revert k Hk. apply Forall_forall.
    revert group Hgroup. apply Forall_forall.
    apply (bool_decide_unpack _). vm_compute. reflexivity.
  - left. exists {| keys := map lit ["tequila"; "mezcal"]%string;
                    options := [ {| site := 42; type := area; value := lit "Mexican" |};
                                 {| site := 43; type := category; value := lit "Pork" |};
                                 {| site := 44; type := category; value := lit "Seafood" |} ] |}.
    split; apply (bool_decide_unpack _); vm_compute; reflexivity.
  - exists ingredients, r. split; [exact Hr|]. apply Hrun. reflexivity.
Defined.

Lemma fetchMealsByRule_result_shape_witness :
  exists meals w',
    fetchMealsByRule generous (fun _ => lowDraw) (Some mexican) idle
    = (Normal meals, w') /\
    (length meals <= 6)%nat.
Proof.
  destruct (fetchMealsByRule_result_shape generous (fun _ => lowDraw)
              (Some mexican) idle)
    as (meals & w' & new & Hrun & _ & Hlen & _).
  exists meals, w'. split; [exact Hrun | exact Hlen].
Defined.

Lemma fetchMealsByRule_exchanges_witness :
  exists meals w' first later,
    fetchMealsByRule silent (fun _ => lowDraw) (Some mexican) idle
    = (Normal meals, w') /\
    exchanges w' = exchanges idle ++ first ++ later /\
    (length later <= 6)%nat /\ NoDup (map fst later).
Proof.
  destruct (fetchMealsByRule_exchanges silent (fun _ => lowDraw) (Some mexican) idle)
    as (meals & w' & first & later & Hrun & Hex & _ & Hlen & Hnd & _).
  exists meals, w', first, later. split_and!; assumption.
Defined.

Lemma fetchMealsByRule_console_witness :
  console (snd (fetchMealsByRule silent (fun _ => lowDraw) None idle))
  = console idle ++ [[lit "Meal pairing fetch failed:"; message typeError]].
Proof.
  destruct (fetchMealsByRule_console silent (fun _ => lowDraw) None idle)
    as (Hnone & _).
  apply Hnone. reflexivity.
Defined.

Lemma postSearch_lookup_witness :
  postSearch generous (text " gin ") (text "lime") idle
  = (Normal (RenderResults tenMeals
               (lit "Results for name: " ++ dquote :: lit "gin" ++ [dquote])),
     afterExchange idle (DrinksByName (lit "gin"), Data (Some tenMeals))).
Proof.
  destruct (postSearch_lookup generous (text " gin ") (text "lime") idle)
    as (Hname & _).
  apply Hname. unfold blank, text. simpl. intros Hb.
  apply Forall_cons in Hb as [_ Hb]. apply Forall_cons in Hb as [Hg _].
  vm_compute in Hg. discriminate Hg.
Defined.

Lemma searchHandler_outcomes_witness :
  exists w',
    searchHandler silent (Some (Structured, Text (text "lime"))) idle
    = (Normal (RenderError (lit "Search failed. Please try different terms.")), w')
    /\ w' = idle.
Proof.
  destruct (searchHandler_outcomes silent idle) as (_ & _ & Hbody).
  destruct (Hbody Structured (Text (text "lime")))
    as (resp & w' & new & Hrun & _ & _ & _ & _ & Herror).
  destruct (Herror (or_introl eq_refl)) as [Hresp Hw].
  exists w'. split; [|exact Hw]. rewrite Hrun, Hresp. reflexivity.
Defined.

Lemma normalizeDrinkDetails_reads_slots_only_witness :
  fst (normalizeDrinkDetails rawMargarita) !! lit "ingredients"
  = fst (normalizeDrinkDetails (<[lit "strDrink" := text "Daisy"]> rawMargarita))
      !! lit "ingredients".
Proof.
  apply normalizeDrinkDetails_reads_slots_only.
  intros i Hi. split; symmetry; apply lookup_insert_ne; discriminate.
Defined.

Lemma normalizeDrinkDetails_flatten_witness :
  fst (normalizeDrinkDetails (flatten martini)) !! lit "ingredients"
  = Some (IngredientList
            [ {| ingredient := VStr (lit "Gin"); measure := VStr (lit "2 oz") |};
              {| ingredient := VStr (lit "Vermouth"); measure := VStr [] |} ]).
Proof.
  apply (normalizeDrinkDetails_flatten martini).
  - simpl. lia.
  - repeat constructor; discriminate.
Defined.

Lemma cocktailView_renders_witness :
  exists rule meals w',
    cocktailView silent (fun _ => highDraw) toLowerCaseLatin rawMargarita idle
    = (Normal (RenderCocktail (fst (normalizeDrinkDetails rawMargarita)) meals
                 (Some rule)), w') /\
    (length meals <= 6)%nat.
Proof.
  destruct (cocktailView_renders silent (fun _ => highDraw) toLowerCaseLatin
              rawMargarita idle highDraw_unit)
    as (rule & rq & meals & w' & later & Hrun & _ & Hlen & _).
  exists rule, meals, w'. split; [exact Hrun | exact Hlen].
Defined.

Lemma drinkPage_outcomes_witness :
  drinkPage silent (fun _ => highDraw) toLowerCaseLatin noDrinks (lit "11007") idle
  = (Normal (Plain (RenderError (lit "Drink not found."))), idle).
Proof.
  destruct (drinkPage_outcomes silent (fun _ => highDraw) toLowerCaseLatin noDrinks
              (lit "11007") idle) as (_ & _ & Hnone & _).
  apply (Hnone None idle); [reflexivity | left; reflexivity].
Defined.

Lemma randomPage_outcomes_witness :
  randomPage silent (fun _ => highDraw) toLowerCaseLatin noDrinks idle
  = (Normal (Plain (RenderError
                      (lit "Could not fetch a random cocktail right now."))),
     idle).
Proof.
  destruct (randomPage_outcomes silent (fun _ => highDraw) toLowerCaseLatin noDrinks
              idle) as (_ & Hnone & _).
  apply Hnone. right. left. reflexivity.
Defined.
